(** * Tag reconciliation and ASG query modules, embedded in Rocq

    A shallow embedding of three Ansible modules,

    - [cloud/amazon/elasticache_tag.py]  (module [ElasticacheTag]),
    - [cloud/amazon/ec2_asg_facts.py]    (module [Ec2AsgFacts]),
    - [cloud/amazon/ec2_asg_find.py]     (module [Ec2AsgFind]),

    together with the properties their specification states about them.

    Python dictionaries are finite maps ([gmap]); Python [str] values are
    byte strings ([string]); exceptions that are not caught by the code are an
    explicit outcome; calls on the boto3 client are nodes of a small
    interaction tree, so that the remote calls a function issues can be
    observed as a log. *)

From stdpp Require Import gmap strings list fin_maps.
From Stdlib Require Import Ascii.

Local Set Warnings "-register-all".
Local Open Scope string_scope.

(** ** Python values, exceptions and results *)

Module Py.

(** The dynamically typed values that occur in provider records. A
    [datetime] is represented by its ISO-8601 rendering. *)
Inductive pyval : Type :=
| PyNone
| PyStr (s : string)
| PyInt (n : Z)
| PyBool (b : bool)
| PyDatetime (iso : string)
| PyList (l : list pyval)
| PyDict (d : gmap string pyval).

(** Exceptions that escape the functions modelled below. [Unmodelled]
    is not a Python exception: it marks an input on which this embedding
    does not say what the code does (a regular expression outside the
    fragment of [Re]). *)
Inductive exn : Type :=
| KeyError (key : string)
| AttributeError (attr : string)
| TypeError (what : string)
| NameError (name : string)
| Unmodelled (what : string).

(** The outcome of evaluating Python code that may raise. *)
Inductive result (A : Type) : Type :=
| Ok (a : A)
| Exn (e : exn).
Arguments Ok {A} a.
Arguments Exn {A} e.

Definition bind {A B : Type} (r : result A) (f : A → result B) : result B :=
  match r with
  | Ok a => f a
  | Exn e => Exn e
  end.

Notation "'try' x := r 'in' k" := (bind r (λ x, k))
  (at level 10, x pattern, r at level 200, k at level 200, only parsing).

(** [d[key]] *)
Definition getitem (d : gmap string pyval) (key : string) : result pyval :=
  match d !! key with
  | Some v => Ok v
  | None => Exn (KeyError key)
  end.

(** [for x in xs: acc = f(acc, x)], stopping at the first exception. *)
Fixpoint for_each {A B : Type} (f : B → A → result B) (xs : list A) (acc : B)
  : result B :=
  match xs with
  | [] => Ok acc
  | x :: xs' => match f acc x with
                | Ok acc' => for_each f xs' acc'
                | Exn e => Exn e
                end
  end.

(** [[f(x) for x in xs]] where [f] may raise. *)
Fixpoint map_each {A B : Type} (f : A → result B) (xs : list A) : result (list B) :=
  match xs with
  | [] => Ok []
  | x :: xs' => try y := f x in
                try ys := map_each f xs' in
                Ok (y :: ys)
  end.

(** [d.keys()], [d.items()] / [d.iteritems()]: the iteration order of a
    dictionary, fixed but arbitrary. *)
Definition keys {V : Type} (d : gmap string V) : list string := (map_to_list d).*1.
Definition items {V : Type} (d : gmap string V) : list (string * V) := map_to_list d.

(** [dict(pairs)]: later pairs overwrite earlier ones. *)
Definition dict_of {V : Type} (pairs : list (string * V)) : gmap string V :=
  foldl (λ d kv, <[kv.1 := kv.2]> d) ∅ pairs.

(** [for x in v]: lists yield their elements, strings their characters,
    dictionaries their keys; other values are not iterable. *)
Definition py_iter (v : pyval) : result (list pyval) :=
  match v with
  | PyList l => Ok l
  | PyStr s => Ok ((λ c, PyStr (String c "")) <$> String.list_ascii_of_string s)
  | PyDict d => Ok (PyStr <$> keys d)
  | _ => Exn (TypeError "object is not iterable")
  end.

(** [v[key]] for a string [key]: only dictionaries can be subscripted so. *)
Definition subscript (v : pyval) (key : string) : result pyval :=
  match v with
  | PyDict d => getitem d key
  | _ => Exn (TypeError "indices must be integers")
  end.

(** [s == v] for a string [s]. *)
Definition eq_str (s : string) (v : pyval) : bool :=
  match v with
  | PyStr s' => bool_decide (s = s')
  | _ => false
  end.

(** *** [str] methods *)

Definition is_upper (c : ascii) : bool :=
  (65 <=? nat_of_ascii c)%nat && (nat_of_ascii c <=? 90)%nat.

(** A string without capitals. *)
Definition no_capitals (s : string) : Prop :=
  Forall (λ c, is_upper c = false) (String.list_ascii_of_string s).

Definition to_lower (c : ascii) : ascii :=
  if is_upper c then ascii_of_nat (nat_of_ascii c + 32) else c.

(** [s.lower()] *)
Fixpoint lower (s : string) : string :=
  match s with
  | EmptyString => EmptyString
  | String c s' => String (to_lower c) (lower s')
  end.

(** [s.split(sep)] for a one-character separator. *)
Fixpoint split_on (sep : ascii) (s : string) : list string :=
  match s with
  | EmptyString => [EmptyString]
  | String c s' =>
      if bool_decide (c = sep) then EmptyString :: split_on sep s'
      else match split_on sep s' with
           | [] => [String c EmptyString]
           | w :: ws => String c w :: ws
           end
  end.

End Py.
Export Py.

(** ** The fragment of Python's [re] that the modules rely on *)

Module Re.

(** What one character of the subject is tested against. *)
Inductive charset : Type :=
| Lit (c : ascii)
| Dot
| Ranges (rs : list (ascii * ascii)).

(** A compiled pattern is a sequence of atoms: the anchor [^], one
    character, or one or more characters ([+], greedy with back-tracking). *)
Inductive atom : Type :=
| Bol
| One (cs : charset)
| Plus (cs : charset).

Definition in_charset (cs : charset) (c : ascii) : bool :=
  match cs with
  | Lit c' => bool_decide (c = c')
  | Dot => negb (bool_decide (c = "010"%char))
  | Ranges rs =>
      existsb (λ r, (nat_of_ascii r.1 <=? nat_of_ascii c)%nat
                    && (nat_of_ascii c <=? nat_of_ascii r.2)%nat) rs
  end.

(** Does the pattern match at the current position? [at_start] tells
    whether the position is the start of the subject. *)
Fixpoint match_here (p : list atom) (at_start : bool) (s : string) : bool :=
  match p with
  | [] => true
  | Bol :: p' => at_start && match_here p' at_start s
  | One cs :: p' =>
      match s with
      | EmptyString => false
      | String c s' => in_charset cs c && match_here p' false s'
      end
  | Plus cs :: p' =>
      (fix more (s : string) : bool :=
         match s with
         | EmptyString => false
         | String c s' => in_charset cs c && (more s' || match_here p' false s')
         end) s
  end.

Fixpoint search_from (p : list atom) (at_start : bool) (s : string) : bool :=
  match_here p at_start s
  || match s with
     | EmptyString => false
     | String _ s' => search_from p false s'
     end.

(** [prog.search(s)], as the truth value of the match object. *)
Definition search (p : list atom) (s : string) : bool := search_from p true s.

(** The characters with a special meaning in a pattern. *)
Definition special : list ascii :=
  String.list_ascii_of_string ".^$*+?{}[]\|()".

Definition is_special (c : ascii) : bool := bool_decide (c ∈ special).

(** A name made of ordinary characters only. *)
Definition plain (s : string) : Prop :=
  Forall (λ c, is_special c = false) (String.list_ascii_of_string s).

(** Patterns made of ordinary characters, [^] and [.]; any other special
    character is outside the fragment. *)
Fixpoint parse (pat : string) : option (list atom) :=
  match pat with
  | EmptyString => Some []
  | String c pat' =>
      p ← parse pat';
      if bool_decide (c = "^"%char) then Some (Bol :: p)
      else if bool_decide (c = "."%char) then Some (One Dot :: p)
      else if is_special c then None
      else Some (One (Lit c) :: p)
  end.

(** [re.compile(pat)] *)
Definition compile (pat : string) : result (list atom) :=
  match parse pat with
  | Some p => Ok p
  | None => Exn (Unmodelled pat)
  end.

(** [re.search(pat, v)] / [re.compile(pat).search(v)]: the subject must be
    a string. *)
Definition search_value (pat : string) (v : pyval) : result bool :=
  try prog := compile pat in
  match v with
  | PyStr s => Ok (search prog s)
  | _ => Exn (TypeError "expected string or buffer")
  end.

(** The literal [r'^subnet-[a-z0-9]+'], compiled. *)
Definition subnet : list atom :=
  Bol :: (One ∘ Lit <$> String.list_ascii_of_string "subnet-")
      ++ [Plus (Ranges [("a"%char, "z"%char); ("0"%char, "9"%char)])].

(** The literal ['(?!^)([A-Z]+)'] is only used through
    [camel_prog.sub(r'_\1', key)]: every maximal run of capitals that
    starts after the first character gets an underscore in front. A run
    that begins at the first character is entered at its second one. *)
Fixpoint camel_sub_from (in_run : bool) (s : string) : string :=
  match s with
  | EmptyString => EmptyString
  | String c s' =>
      if is_upper c then
        if in_run then String c (camel_sub_from true s')
        else String "_" (String c (camel_sub_from true s'))
      else String c (camel_sub_from false s')
  end.

Definition camel_sub (s : string) : string :=
  match s with
  | EmptyString => EmptyString
  | String c s' => String c (camel_sub_from false s')
  end.

End Re.

(** ** [elasticache_tag.py]: the tag reconciler *)

Module ElasticacheTag.

(** One element of an AWS [TagList]: [{'Key': k, 'Value': v}]. *)
Record Tag : Type := mkTag { Key : string; Value : string }.

(** *** The boto3 client

    A call on the client either returns or raises
    [botocore.exceptions.ClientError], the one exception the module
    handles. *)
Inductive response (A : Type) : Type :=
| Success (a : A)
| ClientError (msg : string).
Arguments Success {A} a.
Arguments ClientError {A} msg.

(** Code that talks to the client: it returns, raises, or performs one of
    the three ElastiCache operations the module uses and continues with
    the response. *)
Inductive api (A : Type) : Type :=
| Return (a : A)
| Raise (e : exn)
| list_tags_for_resource (ResourceName : string)
    (k : response (list Tag) → api A)
| add_tags_to_resource (ResourceName : string) (Tags : list Tag)
    (k : response () → api A)
| remove_tags_from_resource (ResourceName : string) (TagKeys : list string)
    (k : response () → api A).
Arguments Return {A} a.
Arguments Raise {A} e.
Arguments list_tags_for_resource {A} ResourceName k.
Arguments add_tags_to_resource {A} ResourceName Tags k.
Arguments remove_tags_from_resource {A} ResourceName TagKeys k.

Fixpoint api_bind {A B : Type} (f : A → api B) (p : api A) : api B :=
  match p with
  | Return a => f a
  | Raise e => Raise e
  | list_tags_for_resource n k => list_tags_for_resource n (λ r, api_bind f (k r))
  | add_tags_to_resource n t k => add_tags_to_resource n t (λ r, api_bind f (k r))
  | remove_tags_from_resource n t k =>
      remove_tags_from_resource n t (λ r, api_bind f (k r))
  end.

(** Sequencing, written [let* x := p in k]. *)
Definition and_then {A B : Type} (p : api A) (f : A → api B) : api B :=
  api_bind f p.

Notation "'let*' x := p 'in' k" := (and_then p (λ x, k))
  (at level 10, x pattern, p at level 200, k at level 200, only parsing).

(** The text of [err_msg], kept symbolic: each constructor is one of the
    message templates of the module with the values it is formatted with. *)
Inductive message : Type :=
| MsgEmpty
| MsgClientError (e : string)
| MsgInvalidAction (action : string)
| MsgTagsUpdated (tags : gmap string string)
| MsgNothingToUpdate
| MsgTagsDoNotExist (tags : gmap string string) (resource_name : string).

(** The [tags] argument of [tags_action]: a list in AWS format when
    creating, a dictionary when deleting. *)
Inductive tags_param : Type :=
| TagList (l : list Tag)
| TagDict (d : gmap string string).

(** The [diff] dictionary: its ['before'] and ['after'] entries. *)
Record diff_t : Type := mkDiff {
  before : option (gmap string string);
  after : option (gmap string string)
}.

(** The 5-tuple returned by [add] and [remove]. *)
Record outcome : Type := mkOutcome {
  success : bool;
  changed : bool;
  err_msg : message;
  tags : gmap string string;
  diff : diff_t
}.

(** [make_tags_in_proper_format]: [formatted_tags[tag.get('Key')] =
    tag.get('Value')] for each tag in turn. *)
Definition make_tags_in_proper_format (tags : list Tag) : gmap string string :=
  foldl (λ formatted_tags tag, <[Key tag := Value tag]> formatted_tags) ∅ tags.

(** [make_tags_in_aws_format]: one [{'Key': key, 'Value': val}] per item. *)
Definition make_tags_in_aws_format (tags : gmap string string) : list Tag :=
  (λ kv, mkTag kv.1 kv.2) <$> items tags.

(** [get_tags]: returns [(success, err_msg, results)]. [results] starts as an
    empty container and stays so when the call raises [ClientError]. *)
Definition get_tags (resource_name : string) (check_mode : bool)
  : api (bool * message * list Tag) :=
  if negb check_mode then
    list_tags_for_resource resource_name (λ r,
      match r with
      | Success results => Return (true, MsgEmpty, results)
      | ClientError e => Return (false, MsgClientError e, [])
      end)
  else
    Return (true, MsgEmpty, [mkTag "DryRunMode" "true"]).

(** [tags_action]: returns [(success, err_msg)]. *)
Definition tags_action (resource_name : string) (tags : tags_param)
    (action : string) (check_mode : bool) : api (bool * message) :=
  if negb check_mode then
    if decide (action = "create") then
      match tags with
      | TagList l =>
          add_tags_to_resource resource_name l (λ r,
            match r with
            | Success _ => Return (true, MsgEmpty)
            | ClientError e => Return (false, MsgClientError e)
            end)
      | TagDict _ => Raise (TypeError "Tags")
      end
    else if decide (action = "delete") then
      match tags with
      | TagDict d =>
          remove_tags_from_resource resource_name (keys d) (λ r,
            match r with
            | Success _ => Return (true, MsgEmpty)
            | ClientError e => Return (false, MsgClientError e)
            end)
      | TagList _ => Raise (AttributeError "keys")
      end
    else Return (false, MsgInvalidAction action)
  else
    if decide (action = "create") then Return (true, MsgEmpty)
    else if decide (action = "delete") then Return (true, MsgEmpty)
    else Return (false, MsgInvalidAction action).

(** The loop of [add] that fills [tags_to_update]. *)
Definition tags_to_update (tags current_tags : gmap string string)
  : gmap string string :=
  foldl (λ upd key,
           match current_tags !! key with
           | Some cur =>
               if decide (cur ≠ tags !!! key) then <[key := tags !!! key]> upd
               else upd
           | None => <[key := tags !!! key]> upd
           end) ∅ (keys tags).

(** [add(client, resource_name, tags, check_mode, diff_mode)] *)
Definition add (resource_name : string) (tags : gmap string string)
    (check_mode diff_mode : bool) : api outcome :=
  let* (retrieve_success, retrieve_msg, current_tags) := get_tags resource_name false in
  if diff_mode then
    Return (mkOutcome true false MsgEmpty tags
              (mkDiff (Some (make_tags_in_proper_format current_tags)) (Some tags)))
  else
    let current_tags := make_tags_in_proper_format current_tags in
    let tags_to_update := tags_to_update tags current_tags in
    if decide (tags_to_update ≠ ∅) then
      let tags := make_tags_in_aws_format tags in
      let* (success, err_msg) := tags_action resource_name (TagList tags) "create" check_mode in
      let changed := if success then true else false in
      let err_msg :=
        if success then MsgTagsUpdated (make_tags_in_proper_format tags)
        else err_msg in
      let* (_, _, new_tags) := get_tags resource_name false in
      Return (mkOutcome success changed err_msg
                (make_tags_in_proper_format new_tags) (mkDiff None None))
    else
      let* (_, _, new_tags) := get_tags resource_name false in
      Return (mkOutcome true false MsgNothingToUpdate
                (make_tags_in_proper_format new_tags) (mkDiff None None)).

(** The loop of [remove] that fills [tags_to_delete]. *)
Definition tags_to_delete (tags current_tags : gmap string string)
  : gmap string string :=
  foldl (λ del key,
           if decide (is_Some (current_tags !! key))
           then <[key := tags !!! key]> del
           else del) ∅ (keys tags).

(** [d.pop(tag)] without a default: [KeyError] when the key is absent. *)
Definition pop (d : gmap string string) (tag : string)
  : result (gmap string string) :=
  match d !! tag with
  | Some _ => Ok (delete tag d)
  | None => Exn (KeyError tag)
  end.

(** [remove(client, resource_name, tags, check_mode, diff_mode)] *)
Definition remove (resource_name : string) (tags : gmap string string)
    (check_mode diff_mode : bool) : api outcome :=
  let* (retrieve_success, retrieve_msg, current_tags) := get_tags resource_name false in
  if diff_mode then
    let before := make_tags_in_proper_format current_tags in
    match for_each pop (keys tags) (make_tags_in_proper_format current_tags) with
    | Ok after =>
        Return (mkOutcome true false MsgEmpty tags (mkDiff (Some before) (Some after)))
    | Exn e => Raise e
    end
  else
    let current_tags := make_tags_in_proper_format current_tags in
    let tags_to_delete := tags_to_delete tags current_tags in
    if decide (tags_to_delete ≠ ∅) then
      let* (success, err_msg) := tags_action resource_name (TagDict tags_to_delete) "delete" check_mode in
      let changed := if success then true else false in
      let* (_, _, new_tags) := get_tags resource_name false in
      Return (mkOutcome success changed err_msg
                (make_tags_in_proper_format new_tags) (mkDiff None None))
    else
      let* (_, _, new_tags) := get_tags resource_name false in
      Return (mkOutcome true false (MsgTagsDoNotExist tags resource_name)
                (make_tags_in_proper_format new_tags) (mkDiff None None)).

(** *** Running against a client

    A client is a state machine answering the three operations; [run]
    executes a program against it and logs the calls in order. *)
Record client (St : Type) : Type := mkClient {
  on_list : string → St → response (list Tag) * St;
  on_add : string → list Tag → St → response () * St;
  on_remove : string → list string → St → response () * St
}.
Arguments mkClient {St} _ _ _.
Arguments on_list {St} _ _ _.
Arguments on_add {St} _ _ _ _.
Arguments on_remove {St} _ _ _ _.

Inductive call : Type :=
| ListCall (ResourceName : string)
| AddCall (ResourceName : string) (Tags : list Tag)
| RemoveCall (ResourceName : string) (TagKeys : list string).

Definition is_mutation (c : call) : bool :=
  match c with
  | ListCall _ => false
  | AddCall _ _ | RemoveCall _ _ => true
  end.

Definition is_remove (c : call) : bool :=
  match c with
  | RemoveCall _ _ => true
  | _ => false
  end.

Record execution (St A : Type) : Type := mkExecution {
  returned : result A;
  final : St;
  log : list call
}.
Arguments mkExecution {St A} _ _ _.
Arguments returned {St A} _.
Arguments final {St A} _.
Arguments log {St A} _.

Definition logged {St A : Type} (c : call) (e : execution St A) : execution St A :=
  mkExecution (returned e) (final e) (c :: log e).

Fixpoint run {St A : Type} (c : client St) (p : api A) (s : St) : execution St A :=
  match p with
  | Return a => mkExecution (Ok a) s []
  | Raise e => mkExecution (Exn e) s []
  | list_tags_for_resource n k =>
      let '(r, s') := on_list c n s in logged (ListCall n) (run c (k r) s')
  | add_tags_to_resource n t k =>
      let '(r, s') := on_add c n t s in logged (AddCall n t) (run c (k r) s')
  | remove_tags_from_resource n t k =>
      let '(r, s') := on_remove c n t s in logged (RemoveCall n t) (run c (k r) s')
  end.

(** A dependable in-memory provider holding the tags of one resource:
    listing returns them, adding overwrites or creates the given keys,
    removing deletes the given keys; no call fails. *)
Definition store_client : client (gmap string string) :=
  mkClient
    (λ _ s, (Success (make_tags_in_aws_format s), s))
    (λ _ tags s, (Success (), foldl (λ m t, <[Key t := Value t]> m) s tags))
    (λ _ ks s, (Success (), foldl (λ m k, delete k m) s ks)).

(** The same provider with its read path down: listing raises
    [ClientError], adding and removing still work. *)
Definition unreadable_client : client (gmap string string) :=
  mkClient
    (λ _ s, (ClientError "Throttling", s))
    (on_add store_client)
    (on_remove store_client).

(** The tags of Scenario A (an update that leaves [Name] undeclared) and
    of Scenario B (removal of a tag that is not there). *)
Definition scenario_A_desired : gmap string string :=
  <["Env" := "dev"]> (<["Service" := "web"]> ∅).
Definition scenario_A_current : gmap string string :=
  <["Env" := "prod"]> (<["Name" := "x"]> ∅).
Definition scenario_B_desired : gmap string string := {[ "Service" := "webapp" ]}.
Definition scenario_B_current : gmap string string := {[ "Env" := "prod" ]}.

Definition no_mutation (l : list call) : Prop :=
  Forall (λ c, is_mutation c = false) l.

End ElasticacheTag.

(** ** [ec2_asg_facts.py]: querying Auto Scaling groups with boto3 *)

Module Ec2AsgFacts.

(** A provider record and a normalized record are dictionaries. *)
Abbreviation record := (gmap string pyval).

(** The inner loop of [match_asg_tags]: [true] when the loop reaches
    [break], [false] when it runs to its [else] clause. [tag['Value']] is
    only evaluated when the key compared equal. *)
Fixpoint tag_found (key value : string) (tags : list pyval) : result bool :=
  match tags with
  | [] => Ok false
  | tag :: tags' =>
      try k := subscript tag "Key" in
      if eq_str key k then
        try v := subscript tag "Value" in
        if eq_str value v then Ok true else tag_found key value tags'
      else tag_found key value tags'
  end.

(** The outer loop of [match_asg_tags] over [tags_to_match.iteritems()]. *)
Fixpoint match_asg_tags_loop (pairs : list (string * string)) (asg : record)
  : result bool :=
  match pairs with
  | [] => Ok true
  | (key, value) :: pairs' =>
      try tags := getitem asg "Tags" in
      try tags := py_iter tags in
      try found := tag_found key value tags in
      if found then match_asg_tags_loop pairs' asg else Ok false
  end.

(** [match_asg_tags(tags_to_match, asg)] *)
Definition match_asg_tags (tags_to_match : gmap string string) (asg : record)
  : result bool :=
  match_asg_tags_loop (items tags_to_match) asg.

(** The key and value of a provider tag: a dictionary whose ['Key'] and
    ['Value'] entries are strings, whatever else it carries. *)
Definition tag_key_value (tag : pyval) : option (string * string) :=
  match tag with
  | PyDict d =>
      match d !! "Key", d !! "Value" with
      | Some (PyStr k), Some (PyStr v) => Some (k, v)
      | _, _ => None
      end
  | _ => None
  end.

(** [camel_prog.sub(r'_\1', key).lower()] *)
Definition snake_case (key : string) : string := lower (Re.camel_sub key).

(** The first key list of [find_asgs]. The source has no comma between
    ['PlacementGroup'] and ['Status'], so the two literals are one. *)
Definition scalar_keys : list string :=
  ["AutoScalingGroupARN"; "AutoScalingGroupName"; "AvailabilityZones";
   "DefaultCooldown"; "DesiredCapacity"; "HealthCheckGracePeriod";
   "HealthCheckType"; "LaunchConfigurationName"; "LoadBalancerNames";
   "MaxSize"; "MinSize"; "NewInstancesProtectedFromScaleIn";
   "PlacementGroup" +:+ "Status"; "TerminationPolicies"].

(** The second key list of [find_asgs]. *)
Definition list_keys : list string :=
  ["EnabledMetrics"; "Instances"; "SuspendedProcesses"; "Tags"].

(** [asg['CreatedTime'].isoformat()] *)
Definition isoformat (v : pyval) : result string :=
  match v with
  | PyDatetime iso => Ok iso
  | _ => Exn (AttributeError "isoformat")
  end.

(** [dict((camel_prog.sub(r'_\1', k).lower(), v) for k, v in item.iteritems())] *)
Definition normalize_item (item : pyval) : result pyval :=
  match item with
  | PyDict d => Ok (PyDict (dict_of ((λ kv, (snake_case kv.1, kv.2)) <$> items d)))
  | _ => Exn (AttributeError "iteritems")
  end.

(** [asg['VPCZoneIdentifier'].split(',')] *)
Definition split_comma (v : pyval) : result pyval :=
  match v with
  | PyStr s => Ok (PyList (PyStr <$> split_on ","%char s))
  | _ => Exn (AttributeError "split")
  end.

(** The body of the first [for key in ...] loop of [find_asgs]. *)
Definition copy_scalar (asg : record) (details : record) (key : string) : record :=
  let new_key := snake_case key in
  match asg !! key with
  | Some v => <[new_key := v]> details
  | None => <[new_key := PyNone]> details
  end.

(** The body of the second [for key in ...] loop of [find_asgs]: nothing
    is assigned when the provider record lacks [key]. *)
Definition copy_list (asg : record) (details : record) (key : string)
  : result record :=
  match asg !! key with
  | Some v =>
      let new_key := snake_case key in
      try elements := py_iter v in
      try converted := map_each normalize_item elements in
      Ok (<[new_key := PyList converted]> details)
  | None => Ok details
  end.

(** The body of [if matched_name and matched_tags:] in [find_asgs], which
    builds [asg_details]. *)
Definition asg_details (asg : record) : result record :=
  try created := getitem asg "CreatedTime" in
  try created := isoformat created in
  let details : record := {[ "created_time" := PyStr created ]} in
  let details := foldl (copy_scalar asg) details scalar_keys in
  try details := for_each (copy_list asg) list_keys details in
  match asg !! "VPCZoneIdentifier" with
  | Some v =>
      try subnets := split_comma v in
      Ok (<["vpc_zone_identifier" := subnets]> details)
  | None => Ok (<["vpc_zone_identifier" := PyNone]> details)
  end.

(** The name test of [find_asgs]: [None] and the empty string are falsy. *)
Definition matched_name (name : option string) (asg : record) : result bool :=
  match name with
  | Some (String c n) =>
      try name_prog := Re.compile ("^" +:+ String c n) in
      try asg_name := getitem asg "AutoScalingGroupName" in
      match asg_name with
      | PyStr s => Ok (Re.search name_prog s)
      | _ => Exn (TypeError "expected string or buffer")
      end
  | _ => Ok true
  end.

(** The tag test of [find_asgs]: [None] and the empty dictionary are falsy. *)
Definition matched_tags (tags : option (gmap string string)) (asg : record)
  : result bool :=
  match tags with
  | Some tags => if decide (tags = ∅) then Ok true else match_asg_tags tags asg
  | None => Ok true
  end.

(** [find_asgs(conn, name, tags)], given the [AutoScalingGroups] that
    [conn.describe_auto_scaling_groups()] returned. *)
Fixpoint find_asgs (asgs : list record) (name : option string)
    (tags : option (gmap string string)) : result (list record) :=
  match asgs with
  | [] => Ok []
  | asg :: asgs' =>
      try matched_name := matched_name name asg in
      try matched_tags := matched_tags tags asg in
      if matched_name && matched_tags then
        try details := asg_details asg in
        try matched_asgs := find_asgs asgs' name tags in
        Ok (details :: matched_asgs)
      else find_asgs asgs' name tags
  end.

(** The message of a failure, kept symbolic. *)
Inductive message : Type :=
| MsgMoreThan (limit_results : Z) (name : pyval)
| MsgNoResults
| MsgNoResultsFor (name : pyval).

(** How the module ends: [module.exit_json] with the keys of [output], or
    [module.fail_json] with [msg] and possibly [asg_names]. *)
Inductive exit : Type :=
| exit_json (changed : bool) (rc : Z) (results : list record)
| fail_json (msg : message) (asg_names : option (list pyval)).

(** The truth value of a list: [not results] holds for the empty list. *)
Definition truthy {A : Type} (l : list A) : bool :=
  match l with
  | [] => false
  | _ :: _ => true
  end.

(** Reading a variable that is not local: the module globals decide. *)
Definition global (globals : gmap string pyval) (name : string) : result pyval :=
  match globals !! name with
  | Some v => Ok v
  | None => Exn (NameError name)
  end.

(** [main] from the result of [find_asgs] on. [main] has no variable
    called [name] (the parameter is held in [asg_name]), so the message
    of the first branch reads a global [name], which must come from the
    [import *] lines if it exists at all; [globals] holds the module
    globals. When no branch assigns [output], reading it fails. *)
Definition report (globals : gmap string pyval) (results : list record)
    (limit_results : Z) (no_result_action : string) : result exit :=
  if bool_decide (limit_results > 0)%Z
     && bool_decide (Z.of_nat (length results) > limit_results)%Z then
    try asg_names := map_each (λ a, getitem a "auto_scaling_group_name") results in
    try name := global globals "name" in
    Ok (fail_json (MsgMoreThan limit_results name) (Some asg_names))
  else if bool_decide (no_result_action = "fail") && negb (truthy results) then
    Ok (fail_json MsgNoResults None)
  else if negb (truthy results) && bool_decide (no_result_action = "success") then
    Ok (exit_json false 0 results)
  else if truthy results then
    Ok (exit_json true 0 results)
  else Exn (NameError "output").

(** [main], given the module parameters and the provider inventory. *)
Definition main (globals : gmap string pyval) (inventory : list record)
    (asg_name : option string) (asg_tags : option (gmap string string))
    (limit_results : Z) (no_result_action : string) : result exit :=
  try results := find_asgs inventory asg_name asg_tags in
  report globals results limit_results no_result_action.

(** *** Schema of a normalized record *)

(** The entries of the first key list that name a provider field. *)
Definition provider_scalar_keys : list string :=
  ["AutoScalingGroupARN"; "AutoScalingGroupName"; "AvailabilityZones";
   "DefaultCooldown"; "DesiredCapacity"; "HealthCheckGracePeriod";
   "HealthCheckType"; "LaunchConfigurationName"; "LoadBalancerNames";
   "MaxSize"; "MinSize"; "NewInstancesProtectedFromScaleIn";
   "TerminationPolicies"].

(** [details] carries every scalar field of [asg], with [None] for the
    absent ones, its creation time and its subnets ([None] when absent),
    and a list-valued field exactly when [asg] has it. *)
Definition normalized (asg details : record) : Prop :=
  (∀ key, key ∈ provider_scalar_keys →
     details !! snake_case key = Some (default PyNone (asg !! key)))
  ∧ (∃ iso, asg !! "CreatedTime" = Some (PyDatetime iso)
            ∧ details !! "created_time" = Some (PyStr iso))
  ∧ is_Some (details !! "vpc_zone_identifier")
  ∧ (asg !! "VPCZoneIdentifier" = None →
     details !! "vpc_zone_identifier" = Some PyNone)
  ∧ (∀ key, key ∈ list_keys →
     (is_Some (details !! snake_case key) ↔ is_Some (asg !! key))).

(** A provider record is well formed when its creation time is a
    datetime, its list-valued fields, if present, are lists of
    dictionaries, and its subnets, if present, are a string. *)
Definition well_formed (asg : record) : Prop :=
  (∃ iso, asg !! "CreatedTime" = Some (PyDatetime iso))
  ∧ (∀ key v, key ∈ list_keys → asg !! key = Some v →
       ∃ ds : list (gmap string pyval), v = PyList (PyDict <$> ds))
  ∧ (∀ v, asg !! "VPCZoneIdentifier" = Some v → ∃ s, v = PyStr s).

(** *** Sample inventory *)

(** A tag as the provider returns it. *)
Definition provider_tag_fields (asg_name : string) (kv : string * string)
  : record :=
  <["Key" := PyStr kv.1]> (<["Value" := PyStr kv.2]>
  (<["PropagateAtLaunch" := PyBool true]>
  (<["ResourceId" := PyStr asg_name]>
  (<["ResourceType" := PyStr "auto-scaling-group"]> ∅)))).

Definition provider_tag (asg_name : string) (kv : string * string) : pyval :=
  PyDict (provider_tag_fields asg_name kv).

(** A group with a name, a creation time and tags, and none of the other
    fields. *)
Definition provider_asg (asg_name : string) (tags : list (string * string))
  : record :=
  <["AutoScalingGroupName" := PyStr asg_name]>
  (<["CreatedTime" := PyDatetime "2016-02-02T23:28:42.481000+00:00"]>
  (<["Tags" := PyList (provider_tag asg_name <$> tags)]> ∅)).

(** Scenario D: two groups whose names start with [public-webserver]. *)
Definition scenario_D_inventory : list record :=
  [provider_asg "public-webserver-1" [("env", "prod")];
   provider_asg "public-webserver-2" [("env", "prod")]].

End Ec2AsgFacts.

(** ** [ec2_asg_find.py]: querying Auto Scaling groups with boto

    A boto object is represented by the dictionary of its attributes, so
    [getattr(obj, attr)] is a lookup that raises [AttributeError]. *)

Module Ec2AsgFind.

Import Ec2AsgFacts.

Definition ASG_KEYS : list string :=
  ["default_cooldown"; "instances"; "health_check_period"; "created_time";
   "availability_zones"; "desired_capacity"; "max_size";
   "placement_group"; "NewInstancesProtectedFromScaleIn"; "tags";
   "autoscaling_group_arn"; "min_size"; "vpc_zone_identifier";
   "load_balancers"; "launch_config_name"; "name"; "termination_policies";
   "instance_id"; "health_check_type"].

Definition INSTANCE_KEYS : list string :=
  ["lifecycle_state"; "availability_zone"; "health_status"; "group_name";
   "instance_id"; "ProtectedFromScaleIn"; "launch_config_name"].

Definition TAG_KEYS : list string := ["key"; "value"].

(** [getattr(obj, attr)] *)
Definition getattr (obj : pyval) (attr : string) : result pyval :=
  match obj with
  | PyDict attrs =>
      match attrs !! attr with
      | Some v => Ok v
      | None => Exn (AttributeError attr)
      end
  | _ => Exn (AttributeError attr)
  end.

(** [dict((attr, getattr(obj, attr)) for attr in object_keys)] *)
Definition attributes (obj : pyval) (object_keys : list string) : result record :=
  for_each (λ (d : record) attr,
              try v := getattr obj attr in Ok (<[attr := v]> d))
           object_keys ∅.

(** [asg.get('name')] *)
Definition get (d : record) (key : string) : pyval := default PyNone (d !! key).

(** [search(asgs, name)]; the test [len(asgs) > 0] around the loop changes
    nothing for a list. *)
Fixpoint search (asgs : list pyval) (name : string) : result (list record) :=
  match asgs with
  | [] => Ok []
  | asg :: asgs' =>
      try asg := attributes asg ASG_KEYS in
      try matched := Re.search_value ("^" +:+ name) (get asg "name") in
      try matched_asgs := search asgs' name in
      Ok (if matched then asg :: matched_asgs else matched_asgs)
  end.

(** [len(objects)] followed by the loop over [objects]. *)
Definition sized (objects : pyval) : result (list pyval) :=
  match objects with
  | PyList l => Ok l
  | PyStr _ | PyDict _ => py_iter objects
  | _ => Exn (TypeError "object has no len()")
  end.

(** [convert_into_dict(objects, object_keys)] *)
Definition convert_into_dict (objects : pyval) (object_keys : list string)
  : result pyval :=
  try objects := sized objects in
  try results := map_each (λ instance,
                             try d := attributes instance object_keys in
                             Ok (PyDict d)) objects in
  Ok (PyList results).

Definition convert_tags_into_dict (tags : pyval) : result pyval :=
  convert_into_dict tags TAG_KEYS.

Definition convert_instances_into_dict (instances : pyval) : result pyval :=
  convert_into_dict instances INSTANCE_KEYS.

(** [convert_string_into_list(subnet_ids)] *)
Definition convert_string_into_list (subnet_ids : pyval) : result pyval :=
  match subnet_ids with
  | PyStr s =>
      if Re.search Re.subnet s then Ok (PyList (PyStr <$> split_on ","%char s))
      else Ok (PyList [])
  | _ => Exn (TypeError "expected string or buffer")
  end.

(** The loop of [find_asgs] over the matched groups. *)
Definition convert_asg (asg : record) : result record :=
  try tags := getitem asg "tags" in
  try tags := convert_tags_into_dict tags in
  let asg := <["tags" := tags]> asg in
  try instances := getitem asg "instances" in
  try instances := convert_instances_into_dict instances in
  let asg := <["instances" := instances]> asg in
  try subnets := getitem asg "vpc_zone_identifier" in
  try subnets := convert_string_into_list subnets in
  Ok (<["vpc_zone_identifier" := subnets]> asg).

(** [find_asgs(name, conn)], given the groups that [conn.get_all_groups()]
    returned. *)
Definition find_asgs (name : string) (asg_groups : list pyval)
  : result (list record) :=
  try matched_asgs := search asg_groups name in
  map_each convert_asg matched_asgs.

(** [main] from the result of [find_asgs] on. As in [ec2_asg_facts.py],
    [main] holds the parameter in [asg_name] and formats its messages with
    [name], which is read from the module globals. *)
Definition report (globals : gmap string pyval) (results : list record)
    (limit_results : Z) (no_result_action : string) : result exit :=
  if bool_decide (limit_results > 0)%Z
     && bool_decide (Z.of_nat (length results) > limit_results)%Z then
    let asg_names := (λ asg, get asg "name") <$> results in
    try name := global globals "name" in
    Ok (fail_json (MsgMoreThan limit_results name) (Some asg_names))
  else if bool_decide (no_result_action = "fail") && negb (truthy results) then
    try name := global globals "name" in
    Ok (fail_json (MsgNoResultsFor name) None)
  else if negb (truthy results) && bool_decide (no_result_action = "success") then
    Ok (exit_json false 0 results)
  else if truthy results then
    Ok (exit_json true 0 results)
  else Exn (NameError "output").

(** [main], given the module parameters and the provider inventory. *)
Definition main (globals : gmap string pyval) (inventory : list pyval)
    (asg_name : string) (limit_results : Z) (no_result_action : string)
  : result exit :=
  try results := find_asgs asg_name inventory in
  report globals results limit_results no_result_action.

(** *** Sample inventory *)

(** A boto group object with the given name, no tags, no instances and two
    subnets; the attributes the module does not interpret are [None]. *)
Definition boto_asg (asg_name : string) : pyval :=
  PyDict (<["name" := PyStr asg_name]>
         (<["tags" := PyList []]>
         (<["instances" := PyList []]>
         (<["vpc_zone_identifier" := PyStr "subnet-a1b1c1d1,subnet-a2b2c2d2"]>
         (foldl (λ (attrs : record) attr, <[attr := PyNone]> attrs) ∅ ASG_KEYS))))).

(** Scenario D: two groups whose names start with [public-webserver]. *)
Definition scenario_D_inventory : list pyval :=
  [boto_asg "public-webserver-1"; boto_asg "public-webserver-2"].

End Ec2AsgFind.

(** ** [elasticache_tag.py]: [main] *)

Module ElasticacheTagMain.

Import ElasticacheTag.

(** What [remove] may receive as [tags]: the dictionary it is written for,
    or a boolean, which is what [main] passes. *)
Inductive tags_value : Type :=
| Mapping (d : gmap string string)
| Boolean (b : bool).

(** [remove] on any [tags] value. A boolean has no [keys] and cannot be
    iterated, so after the initial [get_tags] the first use of [tags]
    raises: [for tag in tags] in diff mode, [tags.keys()] otherwise. *)
Definition remove_any (resource_name : string) (tags : tags_value)
    (check_mode diff_mode : bool) : api outcome :=
  match tags with
  | Mapping d => remove resource_name d check_mode diff_mode
  | Boolean _ =>
      let* (retrieve_success, retrieve_msg, current_tags) :=
        get_tags resource_name false in
      if diff_mode then Raise (TypeError "object is not iterable")
      else Raise (AttributeError "keys")
  end.

(** ["arn:aws:elasticache:{0}:{1}:cluster:{2}".format(region, account_id, name)] *)
Definition cluster_arn (region account_id name : string) : string :=
  "arn:aws:elasticache:" +:+ region +:+ ":" +:+ account_id +:+ ":cluster:" +:+ name.

(** The [exit_results] dictionary of [main]; [diff_mode] is [False] in
    [main], so there is no ['diff'] entry. *)
Record exit_results : Type := mkExitResults {
  r_success : bool;
  r_changed : bool;
  r_err_msg : message;
  r_tags : gmap string string;
  r_arn : string;
  r_name : string
}.

Inductive exit : Type :=
| exit_json (results : exit_results)
| fail_json (results : exit_results).

(** [main] from the computation of [arn] on, given the region of the
    connection and the account id read from IAM. [state = 'absent'] calls
    [remove(client, arn, check_mode, diff_mode)]: [check_mode] lands in
    [tags] and [diff_mode] in [check_mode]. A state that is neither leaves
    [success] unassigned. *)
Definition main (region account_id name state : string)
    (tags : gmap string string) (check_mode : bool) : api exit :=
  let diff_mode := false in
  let arn := cluster_arn region account_id name in
  let* o :=
    if decide (state = "present") then add arn tags check_mode diff_mode
    else if decide (state = "absent") then
      remove_any arn (Boolean check_mode) diff_mode false
    else Raise (NameError "success") in
  let exit_results :=
    mkExitResults (success o) (changed o) (err_msg o) (ElasticacheTag.tags o) arn name in
  if success o then Return (exit_json exit_results)
  else Return (fail_json exit_results).

(** A provider that can be read but refuses every mutation. *)
Definition read_only_client : client (gmap string string) :=
  mkClient
    (on_list store_client)
    (λ _ _ s, (ClientError "AccessDenied", s))
    (λ _ _ s, (ClientError "AccessDenied", s)).

(** The calls a reconciliation may make, as a predicate on one call. *)
Definition is_add (c : call) : bool :=
  match c with
  | AddCall _ _ => true
  | _ => false
  end.

End ElasticacheTagMain.

(** ** Strings joined by a separator *)

Module Joined.

(** [sep.join(pieces)], the provider's encoding of a list of subnets. *)
Fixpoint join (sep : ascii) (pieces : list string) : string :=
  match pieces with
  | [] => EmptyString
  | [piece] => piece
  | piece :: pieces' => piece +:+ String sep (join sep pieces')
  end.

(** A string in which [sep] does not occur. *)
Definition free_of (sep : ascii) (s : string) : Prop :=
  Forall (λ c, c ≠ sep) (String.list_ascii_of_string s).

(** The characters of the class [[a-z0-9]] of the subnet pattern. *)
Definition subnet_id_char (c : ascii) : bool :=
  Re.in_charset (Re.Ranges [("a"%char, "z"%char); ("0"%char, "9"%char)]) c.

(** [name] read as a pattern in which [.] stands for any character but a
    newline: does [s] start with a match of it? *)
Fixpoint wild_prefix (name s : string) : bool :=
  match name, s with
  | EmptyString, _ => true
  | String _ _, EmptyString => false
  | String p name', String c s' =>
      (if bool_decide (p = "."%char) then negb (bool_decide (c = "010"%char))
       else bool_decide (c = p))
      && wild_prefix name' s'
  end.

End Joined.

(** * Properties *)

(** Closed decidable statements (distinct literals, membership in a
    literal list) are settled by evaluation. *)
Ltac by_computation := apply (bool_decide_unpack _); vm_compute; exact I.

(** ** Dictionaries *)

Section dictionaries.
Context {V : Type}.
Implicit Types (d acc : gmap string V) (l : list (string * V)).

Lemma elem_of_keys d k : k ∈ keys d ↔ is_Some (d !! k).
Proof.
  unfold keys. rewrite list_elem_of_fmap. split.
  - intros [[k' v] [-> Hin]]. apply elem_of_map_to_list in Hin. by exists v.
  - intros [v Hv]. exists (k, v). split; [done|]. by apply elem_of_map_to_list.
Qed.

Lemma keys_dom d : list_to_set (keys d) = dom d.
Proof.
  apply set_eq. intros k.
  by rewrite elem_of_list_to_set, elem_of_keys, elem_of_dom.
Qed.

Lemma keys_empty_iff d : keys d = [] ↔ d = ∅.
Proof.
  unfold keys. split.
  - intros H. apply fmap_nil_inv in H. by apply map_to_list_empty_iff.
  - intros ->. by rewrite map_to_list_empty.
Qed.

(** Assigning a list of pairs in turn is a left-biased union with the
    reversed list read as a map. *)
Lemma foldl_insert_pairs l acc :
  foldl (λ m kv, <[kv.1 := kv.2]> m) acc l = list_to_map (reverse l) ∪ acc.
Proof.
  revert acc. induction l as [|[k v] l IH]; intros acc; simpl.
  - by rewrite (left_id_L ∅ (∪)).
  - rewrite IH, reverse_cons, list_to_map_app. simpl.
    rewrite insert_empty, <- (assoc_L (∪)).
    by rewrite <- insert_union_singleton_l.
Qed.

Lemma foldl_insert_items d acc :
  foldl (λ m kv, <[kv.1 := kv.2]> m) acc (items d) = d ∪ acc.
Proof.
  rewrite foldl_insert_pairs. f_equal. unfold items.
  rewrite <- (list_to_map_to_list d) at 2.
  apply list_to_map_proper.
  - rewrite fmap_reverse, reverse_Permutation. apply NoDup_fst_map_to_list.
  - apply reverse_Permutation.
Qed.

(** Rebuilding a dictionary from its own items gives it back. *)
Lemma dict_of_items d : dict_of (items d) = d.
Proof. unfold dict_of. rewrite foldl_insert_items. apply (right_id_L ∅ (∪)). Qed.

End dictionaries.

(** ** The tag reconciler *)

Section reconciler.
Import ElasticacheTag.
Implicit Types (desired current acc : gmap string string).

Lemma make_tags_in_proper_format_pairs (l : list (string * string)) :
  make_tags_in_proper_format ((λ kv, mkTag kv.1 kv.2) <$> l) = dict_of l.
Proof.
  unfold make_tags_in_proper_format, dict_of.
  generalize (∅ : gmap string string).
  induction l as [|kv l IH]; intros acc; simpl; [done|]. apply IH.
Qed.

(** Converting to the AWS format and back is the identity. *)
Lemma make_tags_round_trip current :
  make_tags_in_proper_format (make_tags_in_aws_format current) = current.
Proof.
  unfold make_tags_in_aws_format.
  rewrite make_tags_in_proper_format_pairs. apply dict_of_items.
Qed.

(** What the provider holds after one successful [add_tags_to_resource]. *)
Lemma store_add_union desired current :
  foldl (λ m t, <[Key t := Value t]> m) current (make_tags_in_aws_format desired)
  = desired ∪ current.
Proof.
  unfold make_tags_in_aws_format.
  rewrite <- (foldl_insert_items desired current).
  generalize current. generalize (items desired).
  induction l as [|kv l IH]; intros acc; simpl; [done|]. apply IH.
Qed.

(** The update loop, key by key. *)
Lemma tags_to_update_loop desired current (l : list string) acc k :
  foldl (λ upd key,
           match current !! key with
           | Some cur =>
               if decide (cur ≠ desired !!! key) then <[key := desired !!! key]> upd
               else upd
           | None => <[key := desired !!! key]> upd
           end) acc l !! k
  = if decide (k ∈ l ∧ current !! k ≠ Some (desired !!! k))
    then Some (desired !!! k) else acc !! k.
Proof.
  revert acc. induction l as [|a l IH]; intros acc; cbn [foldl].
  - rewrite decide_False; [done|]. intros [H _]. by apply elem_of_nil in H.
  - rewrite IH. clear IH.
    destruct (decide (k ∈ l ∧ current !! k ≠ Some (desired !!! k))) as [[Hin Hne]|Hno].
    + rewrite decide_True; [done|]. split; [by right|done].
    + destruct (decide (a = k)) as [->|Hak].
      * destruct (current !! k) as [cur|] eqn:Hc.
        -- destruct (decide (cur ≠ desired !!! k)) as [Hd|Hd].
           ++ rewrite lookup_insert_eq, decide_True; [done|].
              split; [by left|]. congruence.
           ++ rewrite decide_False; [done|]. intros [_ H]. apply H.
              f_equal. by destruct (decide (cur = desired !!! k)); [|contradict Hd].
        -- rewrite lookup_insert_eq, decide_True; [done|]. split; [by left|done].
      * assert (¬ (k ∈ a :: l ∧ current !! k ≠ Some (desired !!! k))) as Hno'.
        { intros [Hin Hne]. apply Hno. split; [|done].
          apply elem_of_cons in Hin as [->|Hin]; [done|done]. }
        rewrite (decide_False _ _ Hno').
        destruct (current !! a) as [cur|]; [destruct (decide _)|];
          by rewrite ?lookup_insert_ne.
Qed.

Lemma tags_to_update_lookup desired current k :
  tags_to_update desired current !! k
  = match desired !! k with
    | Some v => if decide (current !! k = Some v) then None else Some v
    | None => None
    end.
Proof.
  unfold tags_to_update. rewrite tags_to_update_loop, lookup_empty.
  destruct (desired !! k) as [v|] eqn:Hd.
  - rewrite (lookup_total_correct _ _ _ Hd).
    assert (k ∈ keys desired) as Hin by (apply elem_of_keys; eauto).
    destruct (decide (current !! k = Some v)).
    + rewrite decide_False; [done|]. by intros [_ ?].
    + by rewrite decide_True.
  - rewrite decide_False; [done|]. intros [Hin _].
    apply elem_of_keys in Hin as [? ?]. congruence.
Qed.

(** Nothing is to update exactly when the desired tags are already there. *)
Lemma tags_to_update_empty_iff desired current :
  tags_to_update desired current = ∅ ↔ desired ⊆ current.
Proof.
  rewrite map_subseteq_spec. split.
  - intros H k v Hk.
    pose proof (tags_to_update_lookup desired current k) as L.
    rewrite H, lookup_empty, Hk in L.
    by destruct (decide (current !! k = Some v)).
  - intros H. apply map_eq. intros k.
    rewrite tags_to_update_lookup, lookup_empty.
    destruct (desired !! k) as [v|] eqn:Hk; [|done].
    by rewrite decide_True by eauto.
Qed.

(** The delete loop, key by key. *)
Lemma tags_to_delete_loop desired current (l : list string) acc k :
  foldl (λ del key,
           if decide (is_Some (current !! key))
           then <[key := desired !!! key]> del
           else del) acc l !! k
  = if decide (k ∈ l ∧ is_Some (current !! k))
    then Some (desired !!! k) else acc !! k.
Proof.
  revert acc. induction l as [|a l IH]; intros acc; cbn [foldl].
  - rewrite decide_False; [done|]. intros [H _]. by apply elem_of_nil in H.
  - rewrite IH. clear IH.
    destruct (decide (k ∈ l ∧ is_Some (current !! k))) as [[Hin Hc]|Hno].
    + rewrite decide_True; [done|]. split; [by right|done].
    + destruct (decide (a = k)) as [->|Hak].
      * destruct (decide (is_Some (current !! k))) as [Hc|Hc].
        -- rewrite lookup_insert_eq, decide_True; [done|]. split; [by left|done].
        -- rewrite decide_False; [done|]. by intros [_ ?].
      * assert (¬ (k ∈ a :: l ∧ is_Some (current !! k))) as Hno'.
        { intros [Hin Hc]. apply Hno. split; [|done].
          apply elem_of_cons in Hin as [->|Hin]; [done|done]. }
        rewrite (decide_False _ _ Hno').
        destruct (decide (is_Some (current !! a))); by rewrite ?lookup_insert_ne.
Qed.

Lemma tags_to_delete_lookup desired current k :
  tags_to_delete desired current !! k
  = match desired !! k with
    | Some v => if decide (is_Some (current !! k)) then Some v else None
    | None => None
    end.
Proof.
  unfold tags_to_delete. rewrite tags_to_delete_loop, lookup_empty.
  destruct (desired !! k) as [v|] eqn:Hd.
  - rewrite (lookup_total_correct _ _ _ Hd).
    assert (k ∈ keys desired) as Hin by (apply elem_of_keys; eauto).
    destruct (decide (is_Some (current !! k))).
    + by rewrite decide_True.
    + rewrite decide_False; [done|]. by intros [_ ?].
  - rewrite decide_False; [done|]. intros [Hin _].
    apply elem_of_keys in Hin as [? ?]. congruence.
Qed.

(** The keys slated for deletion are the desired keys that exist. *)
Lemma tags_to_delete_dom desired current :
  dom (tags_to_delete desired current) = dom desired ∩ dom current.
Proof.
  apply set_eq. intros k.
  rewrite elem_of_intersection, !elem_of_dom, tags_to_delete_lookup.
  destruct (desired !! k) as [v|]; [|split; [by intros [? ?]|by intros [[? ?] _]]].
  destruct (decide (is_Some (current !! k))); split; eauto.
  - by intros [? ?].
  - by intros [_ ?].
Qed.

Lemma run_get_tags {St : Type} (c : client St) name s :
  run c (get_tags name false) s
  = mkExecution
      (Ok match (on_list c name s).1 with
          | Success results => (true, MsgEmpty, results)
          | ClientError e => (false, MsgClientError e, [])
          end)
      (on_list c name s).2 [ListCall name].
Proof. simpl. by destruct (on_list c name s) as [[?|?] ?]. Qed.

(** [add] never asks the provider to remove anything. *)
Lemma add_never_removes {St : Type} (c : client St) s name desired check_mode diff_mode :
  Forall (λ c, is_remove c = false) (log (run c (add name desired check_mode diff_mode) s)).
Proof.
  unfold add, and_then, tags_action. simpl.
  destruct (on_list c name s) as [[fetched|msg] s1]; simpl;
    destruct diff_mode; simpl; repeat constructor;
    case_decide; destruct check_mode; simpl;
    repeat match goal with
           | |- context [on_list c ?n ?x] => destruct (on_list c n x) as [[?|?] ?]; simpl
           | |- context [on_add c ?n ?t ?x] => destruct (on_add c n t x) as [[?|?] ?]; simpl
           end; repeat constructor.
Qed.

(** With the desired tags already in place, [add] reports no change and
    only reads. *)
Lemma add_converged {St : Type} (c : client St) s name desired fetched
    check_mode diff_mode :
  (on_list c name s).1 = Success fetched →
  desired ⊆ make_tags_in_proper_format fetched →
  (∃ o, returned (run c (add name desired check_mode diff_mode) s) = Ok o
        ∧ success o = true ∧ changed o = false)
  ∧ no_mutation (log (run c (add name desired check_mode diff_mode) s)).
Proof.
  intros Hfetch Hsub. apply tags_to_update_empty_iff in Hsub.
  unfold add, and_then, no_mutation. simpl.
  destruct (on_list c name s) as [r s1]. simpl in Hfetch. subst r. simpl.
  destruct diff_mode; simpl.
  - split; [eexists; split; [done|done]|]. by repeat constructor.
  - rewrite decide_False by (by intros H; apply H).
    simpl. destruct (on_list c name s1) as [[?|?] ?]; simpl;
      (split; [eexists; split; [done|done]|]; by repeat constructor).
Qed.

(** One real [add] against the dependable provider. *)
Lemma run_add_store name desired current :
  ∃ o, returned (run store_client (add name desired false false) current) = Ok o
       ∧ success o = true
       ∧ tags o = final (run store_client (add name desired false false) current)
       ∧ final (run store_client (add name desired false false) current)
         = (if decide (desired ⊆ current) then current else desired ∪ current).
Proof.
  unfold add, and_then. simpl. rewrite make_tags_round_trip.
  destruct (decide (tags_to_update desired current ≠ ∅)) as [Hne|He]; simpl.
  - rewrite store_add_union.
    eexists. split; [done|]. simpl. rewrite make_tags_round_trip.
    split; [done|]. split; [done|].
    rewrite decide_False; [done|]. by rewrite <- tags_to_update_empty_iff.
  - eexists. split; [done|]. simpl. rewrite make_tags_round_trip.
    split; [done|]. split; [done|].
    rewrite decide_True; [done|]. apply tags_to_update_empty_iff.
    by destruct (decide (tags_to_update desired current = ∅)); [|contradict He].
Qed.

(** C3 — upsert reconciliation is idempotent. Whenever the tags fetched at
    the start already contain every desired key with an equal value, [add]
    succeeds with [changed = false] and its only calls are reads, whatever
    the provider, the check mode and the diff mode. Consequently, running
    the same [add] twice in a row against a dependable provider reports
    [changed = false] the second time, issues no mutation the second time,
    and both runs report the same tags and leave the same tags on the
    resource, which contain the desired ones when the run is not a diff. *)
Theorem add_idempotent :
  (∀ (St : Type) (c : client St) (s : St) (name : string)
     (desired : gmap string string) (fetched : list Tag)
     (check_mode diff_mode : bool),
      (on_list c name s).1 = Success fetched →
      (∀ key value, desired !! key = Some value →
         make_tags_in_proper_format fetched !! key = Some value) →
      let e := run c (add name desired check_mode diff_mode) s in
      (∃ o, returned e = Ok o ∧ success o = true ∧ changed o = false)
      ∧ no_mutation (log e))
  ∧
  (∀ (name : string) (desired current : gmap string string) (diff_mode : bool),
      let e1 := run store_client (add name desired false diff_mode) current in
      let e2 := run store_client (add name desired false diff_mode) (final e1) in
      ∃ o1 o2,
        returned e1 = Ok o1 ∧ returned e2 = Ok o2
        ∧ changed o2 = false
        ∧ no_mutation (log e2)
        ∧ tags o2 = tags o1
        ∧ final e2 = final e1
        ∧ (diff_mode = false →
           (∀ key value, desired !! key = Some value → final e1 !! key = Some value)
           ∧ tags o1 = final e1)).
Proof.
  split.
  - intros St c s name desired fetched check_mode diff_mode Hf Hs.
    apply (add_converged c s name desired fetched); [done|].
    by apply map_subseteq_spec.
  - intros name desired current [|]; simpl.
    + exists (mkOutcome true false MsgEmpty desired
                (mkDiff (Some (make_tags_in_proper_format
                                 (make_tags_in_aws_format current))) (Some desired))).
      eexists. unfold add, and_then, no_mutation; simpl.
      repeat split; try done. by repeat constructor.
    + destruct (run_add_store name desired current) as (o1 & Hr1 & _ & Ht1 & Hf1).
      set (s1 := final (run store_client (add name desired false false) current)) in *.
      assert (desired ⊆ s1) as Hsub.
      { rewrite Hf1. case_decide; [done|]. apply map_union_subseteq_l. }
      destruct (add_converged store_client s1 name desired
                  (make_tags_in_aws_format s1) false false) as [(o2 & Hr2 & _ & Hc2) Hl2].
      { done. }
      { by rewrite make_tags_round_trip. }
      destruct (run_add_store name desired s1) as (o2' & Hr2' & _ & Ht2 & Hf2).
      rewrite Hr2 in Hr2'. injection Hr2' as <-.
      rewrite decide_True in Hf2 by done.
      exists o1, o2. repeat split; try done.
      * by rewrite Ht2, Hf2, Ht1.
      * by apply map_subseteq_spec.
Qed.

Lemma add_idempotent_witness :
  let desired : gmap string string := {[ "Env" := "dev" ]} in
  let e := run store_client (add "test-cache" desired true false) desired in
  (∃ o, returned e = Ok o ∧ success o = true ∧ changed o = false)
  ∧ no_mutation (log e).
Proof.
  intros desired.
  apply (proj1 add_idempotent _ store_client desired "test-cache" desired
           (make_tags_in_aws_format desired) true false).
  - reflexivity.
  - intros key value Hkv. by rewrite make_tags_round_trip.
Defined.

(** C1 — the documented policy is that [add] removes the tags that are not
    in the dictionary; the code never does. On Scenario A (desired
    [{Env: dev, Service: web}], current [{Env: prod, Name: x}]) the calls of
    a real run are one read, one [add_tags_to_resource] with the desired
    tags and one read: no removal is requested, and the undeclared tag
    [Name] is still on the resource and in the reported tags. *)
Theorem add_keeps_undeclared_tag :
  let e := run store_client
             (add "test-cache" scenario_A_desired false false) scenario_A_current in
  log e = [ListCall "test-cache";
           AddCall "test-cache" (make_tags_in_aws_format scenario_A_desired);
           ListCall "test-cache"]
  ∧ final e !! "Name" = Some "x"
  ∧ ∃ o, returned e = Ok o ∧ success o = true ∧ changed o = true
         ∧ tags o !! "Name" = Some "x".
Proof.
  split; [by vm_compute|]. split; [by vm_compute|].
  eexists. split; [by vm_compute|]. by vm_compute.
Qed.

(** C2 — a failed initial fetch is not checked. With the read path of the
    provider down, [add] still sends [add_tags_to_resource] and reports
    success with [changed = true]; [remove] sends nothing but reports
    success as well, so neither reports the fetch failure. *)
Theorem add_mutates_after_failed_fetch :
  let desired : gmap string string := {[ "Env" := "dev" ]} in
  let e := run unreadable_client (add "test-cache" desired false false) ∅ in
  let e' := run unreadable_client (remove "test-cache" desired false false) ∅ in
  (on_list unreadable_client "test-cache" ∅).1 = ClientError "Throttling"
  ∧ log e = [ListCall "test-cache";
             AddCall "test-cache" [mkTag "Env" "dev"];
             ListCall "test-cache"]
  ∧ final e = desired
  ∧ (∃ o, returned e = Ok o ∧ success o = true ∧ changed o = true
          ∧ err_msg o = MsgTagsUpdated desired)
  ∧ log e' = [ListCall "test-cache"; ListCall "test-cache"]
  ∧ (∃ o, returned e' = Ok o ∧ success o = true ∧ changed o = false
          ∧ err_msg o = MsgTagsDoNotExist desired "test-cache").
Proof.
  split; [done|]. split; [by vm_compute|]. split; [by vm_compute|].
  split; [eexists; split; [by vm_compute|]; by vm_compute|].
  split; [by vm_compute|].
  eexists; split; [by vm_compute|]; by vm_compute.
Qed.

(** Outside diff mode [remove] asks for the deletion of exactly the desired
    keys that the fetched tags contain, in one call, and asks for nothing
    when there is no such key. *)
Lemma remove_deletes_existing_keys {St : Type} (c : client St) s name desired fetched :
  (on_list c name s).1 = Success fetched →
  let current := make_tags_in_proper_format fetched in
  let e := run c (remove name desired false false) s in
  if decide (dom desired ∩ dom current = ∅)
  then no_mutation (log e)
       ∧ ∃ o, returned e = Ok o ∧ success o = true ∧ changed o = false
  else ∃ ks, log e = [ListCall name; RemoveCall name ks; ListCall name]
             ∧ list_to_set ks = dom desired ∩ dom current.
Proof.
  intros Hfetch current e. subst e.
  unfold remove, and_then, tags_action, no_mutation. simpl.
  destruct (on_list c name s) as [r s1]. simpl in Hfetch. subst r. simpl.
  fold current. rewrite <- tags_to_delete_dom.
  destruct (decide (tags_to_delete desired current ≠ ∅)) as [Hne|He].
  - rewrite decide_False by (by rewrite dom_empty_iff_L).
    exists (keys (tags_to_delete desired current)). simpl.
    destruct (on_remove c name _ s1) as [[?|?] s2]; simpl;
      destruct (on_list c name s2) as [[?|?] ?]; simpl;
      (split; [done|apply keys_dom]).
  - rewrite decide_True.
    2:{ apply dom_empty_iff_L.
        by destruct (decide (tags_to_delete desired current = ∅)); [|contradict He]. }
    simpl. destruct (on_list c name s1) as [[?|?] ?]; simpl;
      (split; [by repeat constructor|eexists; split; [done|done]]).
Qed.

(** C4 — [remove] in diff mode pops every listed key from a copy of the
    current tags without checking that it is there. Asking to remove
    [Service] from a resource tagged [{Env: prod}] (Scenario B) in diff mode
    raises [KeyError] after the initial read, while the same request outside
    diff mode is the no-op the specification describes: success,
    [changed = false],
    no mutation call. *)
Theorem remove_absent_key_in_diff_mode_raises :
  let e := run store_client
             (remove "test-cache" scenario_B_desired false true) scenario_B_current in
  let e' := run store_client
              (remove "test-cache" scenario_B_desired false false) scenario_B_current in
  returned e = Exn (KeyError "Service")
  ∧ log e = [ListCall "test-cache"]
  ∧ no_mutation (log e')
  ∧ ∃ o, returned e' = Ok o ∧ success o = true ∧ changed o = false.
Proof.
  split; [by vm_compute|]. split; [by vm_compute|].
  split; [by repeat constructor|].
  eexists. split; [by vm_compute|]. by vm_compute.
Qed.

End reconciler.

(** ** Key canonicalization *)

Section canonicalization.
Import Ec2AsgFacts.

Lemma to_lower_not_upper c : is_upper (to_lower c) = false.
Proof. by destruct c as [[] [] [] [] [] [] [] []]. Qed.

Lemma to_lower_id c : is_upper c = false → to_lower c = c.
Proof. unfold to_lower. by intros ->. Qed.

Lemma lower_no_capitals s : no_capitals (lower s).
Proof.
  unfold no_capitals. induction s as [|c s IH]; simpl; constructor; [|done].
  apply to_lower_not_upper.
Qed.

Lemma lower_id s : no_capitals s → lower s = s.
Proof.
  unfold no_capitals. induction s as [|c s IH]; simpl; [done|].
  intros H. apply Forall_cons in H as [Hc Hs]. by rewrite to_lower_id, IH.
Qed.

Lemma camel_sub_from_id b s : no_capitals s → Re.camel_sub_from b s = s.
Proof.
  unfold no_capitals. revert b. induction s as [|c s IH]; intros b; simpl; [done|].
  intros H. apply Forall_cons in H as [Hc Hs]. by rewrite Hc, IH.
Qed.

Lemma camel_sub_id s : no_capitals s → Re.camel_sub s = s.
Proof.
  destruct s as [|c s]; simpl; [done|]. unfold no_capitals. simpl.
  intros H. apply Forall_cons in H as [Hc Hs]. by rewrite camel_sub_from_id.
Qed.

Lemma snake_case_fixed s : no_capitals s → snake_case s = s.
Proof. intros H. unfold snake_case. by rewrite camel_sub_id, lower_id. Qed.

Lemma snake_case_no_capitals s : no_capitals (snake_case s).
Proof. apply lower_no_capitals. Qed.

(** C9 — the key transform of [find_asgs] (underscore before each run of
    capitals that starts after the first character, then lower-casing) is
    idempotent, every string without capitals is a fixed point of it, and a
    record whose keys have no capitals is returned unchanged by the
    per-record conversion. *)
Theorem snake_case_idempotent :
  (∀ key : string, snake_case (snake_case key) = snake_case key)
  ∧ (∀ key : string, no_capitals key → snake_case key = key)
  ∧ (∀ item : gmap string pyval,
       (∀ key, is_Some (item !! key) → no_capitals key) →
       normalize_item (PyDict item) = Ok (PyDict item)).
Proof.
  split; [|split].
  - intros key. apply snake_case_fixed, snake_case_no_capitals.
  - apply snake_case_fixed.
  - intros item Hkeys. unfold normalize_item. do 2 f_equal.
    rewrite <- (dict_of_items item) at 2. f_equal.
    rewrite <- (list_fmap_id (items item)) at 2.
    apply list_fmap_ext. intros i [k v] Hkv. simpl.
    rewrite snake_case_fixed; [done|]. apply Hkeys. exists v.
    apply elem_of_map_to_list. unfold items in Hkv.
    by apply list_elem_of_lookup_2 in Hkv.
Qed.

Lemma snake_case_idempotent_witness :
  let item : gmap string pyval :=
    <["key" := PyStr "env"]> (<["propagate_at_launch" := PyBool true]> ∅) in
  normalize_item (PyDict item) = Ok (PyDict item).
Proof.
  intros item.
  apply (proj2 (proj2 snake_case_idempotent) item).
  intros key [v Hv]. unfold item in Hv.
  apply lookup_insert_Some in Hv as [[<- _]|[_ Hv]]; [by vm_compute; repeat constructor|].
  apply lookup_insert_Some in Hv as [[<- _]|[_ Hv]]; [by vm_compute; repeat constructor|].
  by rewrite lookup_empty in Hv.
Defined.

End canonicalization.

(** ** Name filter *)

Section name_filter.
Import Ec2AsgFacts.

Lemma search_from_anchored p s : Re.search_from (Re.Bol :: p) false s = false.
Proof. induction s as [|c s IH]; simpl; [done|]. by rewrite IH. Qed.

Lemma search_anchored p s : Re.search (Re.Bol :: p) s = Re.match_here p true s.
Proof.
  unfold Re.search. destruct s as [|c s]; simpl.
  - by rewrite orb_false_r.
  - by rewrite search_from_anchored, orb_false_r.
Qed.

(** Ordinary characters compile to themselves. *)
Lemma parse_plain name :
  Re.plain name →
  Re.parse name = Some (Re.One ∘ Re.Lit <$> String.list_ascii_of_string name).
Proof.
  unfold Re.plain. induction name as [|c name IH]; simpl; [done|].
  intros H. apply Forall_cons in H as [Hc Hn]. rewrite (IH Hn). simpl.
  assert (c ≠ "^"%char) as H1 by (by intros ->).
  assert (c ≠ "."%char) as H2 by (by intros ->).
  by rewrite !bool_decide_eq_false_2, Hc by done.
Qed.

(** A pattern of literal characters matches exactly the subjects that start
    with those characters. *)
Lemma match_here_literal name b s :
  Re.match_here (Re.One ∘ Re.Lit <$> String.list_ascii_of_string name) b s
  = String.prefix name s.
Proof.
  revert b s. induction name as [|c name IH]; intros b s; simpl.
  - by destruct s.
  - destruct s as [|c' s]; [done|]. rewrite IH. simpl.
    destruct (Ascii.ascii_dec c c') as [->|Hne].
    + by rewrite bool_decide_eq_true_2.
    + rewrite bool_decide_eq_false_2; [done|]. by intros ->.
Qed.

Lemma search_value_prefix name s :
  Re.plain name →
  Re.search_value ("^" +:+ name) (PyStr s) = Ok (String.prefix name s).
Proof.
  intros Hp. unfold Re.search_value, Re.compile. simpl.
  change ("" +:+ name) with name. rewrite (parse_plain name Hp). simpl.
  by rewrite search_anchored, match_here_literal.
Qed.

Lemma compile_anchored name :
  Re.plain name →
  Re.compile ("^" +:+ name)
  = Ok (Re.Bol :: (Re.One ∘ Re.Lit <$> String.list_ascii_of_string name)).
Proof.
  intros Hp. unfold Re.compile. simpl.
  change ("" +:+ name) with name. by rewrite (parse_plain name Hp).
Qed.

(** C7 — for a name filter made of ordinary characters, the name test of
    both modules is the prefix test: in [ec2_asg_facts.py] a group passes
    exactly when the filter is a prefix of its [AutoScalingGroupName], and
    in [ec2_asg_find.py] [search] returns, in inventory order, exactly the
    groups whose [name] starts with the filter. *)
Theorem name_filter_is_prefix (name : string) :
  Re.plain name →
  (∀ (asg : gmap string pyval) (asg_name : string),
      asg !! "AutoScalingGroupName" = Some (PyStr asg_name) →
      matched_name (Some name) asg = Ok (String.prefix name asg_name))
  ∧ (∀ (asgs : list pyval) (found : list (gmap string pyval * string)),
       Forall2 (λ obj dn, Ec2AsgFind.attributes obj Ec2AsgFind.ASG_KEYS = Ok dn.1
                          ∧ dn.1 !! "name" = Some (PyStr dn.2)) asgs found →
       Ec2AsgFind.search asgs name
       = Ok (filter (λ dn, String.prefix name dn.2 = true) found).*1).
Proof.
  intros Hp. split.
  - intros asg asg_name Hn. unfold matched_name.
    destruct name as [|c n]; [by destruct asg_name|].
    rewrite (compile_anchored _ Hp). unfold getitem. simpl. rewrite Hn. simpl.
    f_equal. rewrite search_anchored. apply (match_here_literal (String c n)).
  - intros asgs found H. induction H as [|obj [d n] asgs found [Hd Hn] _ IH]; [done|].
    simpl in *. rewrite Hd. simpl. unfold Ec2AsgFind.get. rewrite Hn. simpl.
    rewrite (search_value_prefix name n Hp). simpl. rewrite IH. simpl.
    rewrite filter_cons. simpl.
    destruct (String.prefix name n) eqn:E.
    + by rewrite decide_True.
    + by rewrite decide_False.
Qed.

Lemma name_filter_is_prefix_witness :
  matched_name (Some "public-webserver")
    {[ "AutoScalingGroupName" := PyStr "public-webserver-asg" ]}
  = Ok (String.prefix "public-webserver" "public-webserver-asg").
Proof.
  apply (proj1 (name_filter_is_prefix "public-webserver"
                  ltac:(unfold Re.plain; simpl; repeat constructor))).
  reflexivity.
Defined.

(** Scenario C: the filter [public-webserver] keeps [public-webserver-asg]
    and drops [private-db-asg]; a name that merely contains the filter does
    not pass. *)
Example name_filter_scenario :
  matched_name (Some "public-webserver")
    {[ "AutoScalingGroupName" := PyStr "public-webserver-asg" ]} = Ok true
  ∧ matched_name (Some "public-webserver")
      {[ "AutoScalingGroupName" := PyStr "private-db-asg" ]} = Ok false
  ∧ matched_name (Some "webserver")
      {[ "AutoScalingGroupName" := PyStr "public-webserver-asg" ]} = Ok false.
Proof. by vm_compute. Qed.

End name_filter.

(** ** Tag filter *)

Section tag_filter.
Import Ec2AsgFacts.

Lemma tag_found_spec key value tags (kvs : list (string * string)) :
  Forall2 (λ tag kv, tag_key_value tag = Some kv) tags kvs →
  tag_found key value tags = Ok (bool_decide ((key, value) ∈ kvs)).
Proof.
  induction 1 as [|tag [k v] tags kvs Htag _ IH]; [done|].
  simpl. unfold tag_key_value in Htag.
  destruct tag as [| | | | | |d]; try done. simpl. unfold getitem.
  destruct (d !! "Key") as [[|k'| | | | |]|] eqn:Hk; try done.
  destruct (d !! "Value") as [[|v'| | | | |]|] eqn:Hv; try done.
  injection Htag as -> ->. simpl.
  destruct (decide (key = k)) as [->|Hkey].
  - rewrite bool_decide_eq_true_2 by done. simpl.
    destruct (decide (value = v)) as [->|Hval].
    + rewrite !bool_decide_eq_true_2; [done|by left|done].
    + rewrite (bool_decide_eq_false_2 (value = v)) by done. rewrite IH.
      f_equal. apply bool_decide_ext. rewrite elem_of_cons.
      split; [by right|]. intros [E|?]; [congruence|done].
  - rewrite bool_decide_eq_false_2 by done. rewrite IH.
    f_equal. apply bool_decide_ext. rewrite elem_of_cons.
    split; [by right|]. intros [E|?]; [congruence|done].
Qed.

Lemma match_asg_tags_loop_spec pairs asg tags (kvs : list (string * string)) :
  asg !! "Tags" = Some (PyList tags) →
  Forall2 (λ tag kv, tag_key_value tag = Some kv) tags kvs →
  match_asg_tags_loop pairs asg = Ok (bool_decide (Forall (λ p, p ∈ kvs) pairs)).
Proof.
  intros Hasg Htags. induction pairs as [|[key value] pairs IH].
  - cbn [match_asg_tags_loop]. by rewrite bool_decide_eq_true_2.
  - cbn [match_asg_tags_loop]. unfold getitem. rewrite Hasg. simpl.
    rewrite (tag_found_spec key value tags kvs Htags). simpl.
    destruct (decide ((key, value) ∈ kvs)) as [Hin|Hin].
    + rewrite (bool_decide_eq_true_2 _ Hin), IH. f_equal.
      apply bool_decide_ext. rewrite Forall_cons. split; [done|by intros [_ ?]].
    + rewrite (bool_decide_eq_false_2 _ Hin). f_equal. symmetry.
      apply bool_decide_eq_false_2. rewrite Forall_cons. by intros [? _].
Qed.

(** C6 — a group passes the tag test exactly when every pair of the filter
    occurs, with an equal value, among its tags. Hence a filter key that no
    tag of the group carries excludes the group, and so does, for a group
    whose tag keys are distinct, a filter key carried with another value.
    The answer is the same in whatever order the pairs of the filter are
    visited. *)
Theorem match_asg_tags_all_pairs (filter : gmap string string)
    (asg : gmap string pyval) (tags : list pyval) (kvs : list (string * string)) :
  asg !! "Tags" = Some (PyList tags) →
  Forall2 (λ tag kv, tag_key_value tag = Some kv) tags kvs →
  ∃ passes : bool,
    match_asg_tags filter asg = Ok passes
    ∧ (passes = true ↔ ∀ k v, filter !! k = Some v → (k, v) ∈ kvs)
    ∧ (∀ k v, filter !! k = Some v → k ∉ kvs.*1 → passes = false)
    ∧ (NoDup kvs.*1 →
       ∀ k v v', filter !! k = Some v → (k, v') ∈ kvs → v' ≠ v → passes = false)
    ∧ (∀ pairs, pairs ≡ₚ items filter → match_asg_tags_loop pairs asg = Ok passes).
Proof.
  intros Hasg Htags. eexists. split.
  { unfold match_asg_tags. by apply (match_asg_tags_loop_spec _ _ tags kvs). }

  assert (Forall (λ p, p ∈ kvs) (items filter)
          ↔ ∀ k v, filter !! k = Some v → (k, v) ∈ kvs) as Hall.
  { rewrite Forall_forall. unfold items. split.
    - intros H k v Hkv. apply H. by apply elem_of_map_to_list.
    - intros H [k v] Hkv. apply H. by apply elem_of_map_to_list. }
  split; [|split; [|split]].
  - by rewrite bool_decide_eq_true, Hall.
  - intros k v Hf Hk. apply bool_decide_eq_false_2. rewrite Hall.
    intros H. apply Hk. apply list_elem_of_fmap. exists (k, v). split; [done|].
    by apply H.
  - intros Hnd k v v' Hf Hin Hne. apply bool_decide_eq_false_2. rewrite Hall.
    intros H. apply Hne. symmetry.
    pose proof (elem_of_list_to_map_1 (M := gmap string) kvs k v Hnd (H k v Hf)) as E1.
    pose proof (elem_of_list_to_map_1 (M := gmap string) kvs k v' Hnd Hin) as E2.
    congruence.
  - intros pairs Hperm.
    rewrite (match_asg_tags_loop_spec pairs asg tags kvs Hasg Htags).
    f_equal. apply bool_decide_ext. by rewrite Hperm.
Qed.

Lemma match_asg_tags_all_pairs_witness :
  ∃ passes : bool,
    match_asg_tags (<["env" := "prod"]> {[ "team" := "y" ]})
      (provider_asg "web" [("env", "prod"); ("team", "x")]) = Ok passes
    ∧ (passes = true ↔
       ∀ k v, (<["env" := "prod"]> {[ "team" := "y" ]} : gmap string string) !! k = Some v →
              (k, v) ∈ [("env", "prod"); ("team", "x")])
    ∧ (∀ k v, (<["env" := "prod"]> {[ "team" := "y" ]} : gmap string string) !! k = Some v →
              k ∉ [("env", "prod"); ("team", "x")].*1 → passes = false)
    ∧ (NoDup [("env", "prod"); ("team", "x")].*1 →
       ∀ k v v', (<["env" := "prod"]> {[ "team" := "y" ]} : gmap string string) !! k = Some v →
                 (k, v') ∈ [("env", "prod"); ("team", "x")] → v' ≠ v → passes = false)
    ∧ (∀ pairs, pairs ≡ₚ items (<["env" := "prod"]> {[ "team" := "y" ]} : gmap string string) →
         match_asg_tags_loop pairs (provider_asg "web" [("env", "prod"); ("team", "x")])
         = Ok passes).
Proof.
  apply (match_asg_tags_all_pairs (<["env" := "prod"]> {[ "team" := "y" ]})
           (provider_asg "web" [("env", "prod"); ("team", "x")])
           (provider_tag "web" <$> [("env", "prod"); ("team", "x")])
           [("env", "prod"); ("team", "x")]).
  - reflexivity.
  - repeat constructor.
Defined.

(** Tag-filter AND semantics: with tags [{env: prod, team: x}] the filter
    [{env: prod, team: y}] excludes the group, the filter [{env: prod}]
    keeps it, and so does [{team: x, env: prod}]. *)
Example tag_filter_scenario :
  let asg := provider_asg "web" [("env", "prod"); ("team", "x")] in
  match_asg_tags (<["env" := "prod"]> {[ "team" := "y" ]}) asg = Ok false
  ∧ match_asg_tags {[ "env" := "prod" ]} asg = Ok true
  ∧ match_asg_tags (<["team" := "x"]> {[ "env" := "prod" ]}) asg = Ok true.
Proof. by vm_compute. Qed.

End tag_filter.

(** ** Normalized records *)

Section normalization.
Import Ec2AsgFacts.
Implicit Types (asg details acc : gmap string pyval).

Lemma scalar_loop_other asg (l : list string) acc j :
  j ∉ snake_case <$> l → foldl (copy_scalar asg) acc l !! j = acc !! j.
Proof.
  revert acc. induction l as [|a l IH]; intros acc Hj; [done|].
  rewrite fmap_cons, not_elem_of_cons in Hj. destruct Hj as [Hja Hjl].
  cbn [foldl]. rewrite (IH _ Hjl). unfold copy_scalar.
  destruct (asg !! a); by rewrite lookup_insert_ne.
Qed.

Lemma scalar_loop_key asg (l : list string) acc k :
  NoDup (snake_case <$> l) → k ∈ l →
  foldl (copy_scalar asg) acc l !! snake_case k = Some (default PyNone (asg !! k)).
Proof.
  revert acc. induction l as [|a l IH]; intros acc Hnd Hk.
  - by apply elem_of_nil in Hk.
  - rewrite fmap_cons in Hnd. apply NoDup_cons in Hnd as [Ha Hnd].
    cbn [foldl]. apply elem_of_cons in Hk as [->|Hk].
    + rewrite (scalar_loop_other _ _ _ _ Ha). unfold copy_scalar.
      destruct (asg !! a); by rewrite lookup_insert_eq.
    + by apply IH.
Qed.

Lemma list_loop_other asg (l : list string) acc details j :
  for_each (copy_list asg) l acc = Ok details →
  j ∉ snake_case <$> l → details !! j = acc !! j.
Proof.
  revert acc. induction l as [|a l IH]; intros acc Hrun Hj.
  - by injection Hrun as <-.
  - rewrite fmap_cons, not_elem_of_cons in Hj. destruct Hj as [Hja Hjl].
    cbn [for_each] in Hrun.
    destruct (copy_list asg acc a) as [acc1|e] eqn:Hstep; [|done].
    rewrite (IH _ Hrun Hjl). unfold copy_list in Hstep.
    destruct (asg !! a) as [v|]; [|by injection Hstep as <-].
    destruct (py_iter v) as [els|]; [|done]. simpl in Hstep.
    destruct (map_each normalize_item els); [|done]. simpl in Hstep.
    injection Hstep as <-. by rewrite lookup_insert_ne.
Qed.

Lemma list_loop_key asg (l : list string) acc details k :
  for_each (copy_list asg) l acc = Ok details →
  NoDup (snake_case <$> l) → k ∈ l → acc !! snake_case k = None →
  (is_Some (details !! snake_case k) ↔ is_Some (asg !! k)).
Proof.
  revert acc. induction l as [|a l IH]; intros acc Hrun Hnd Hk Hacc.
  - by apply elem_of_nil in Hk.
  - rewrite fmap_cons in Hnd. apply NoDup_cons in Hnd as [Ha Hnd].
    cbn [for_each] in Hrun.
    destruct (copy_list asg acc a) as [acc1|e] eqn:Hstep; [|done].
    unfold copy_list in Hstep.
    apply elem_of_cons in Hk as [->|Hk].
    + rewrite (list_loop_other _ _ _ _ _ Hrun Ha).
      destruct (asg !! a) as [v|].
      * destruct (py_iter v) as [els|]; [|done]. simpl in Hstep.
        destruct (map_each normalize_item els); [|done]. simpl in Hstep.
        injection Hstep as <-. rewrite lookup_insert_eq. split; eauto.
      * injection Hstep as <-. by rewrite Hacc.
    + apply (IH acc1); [done|done|done|].
      assert (snake_case a ≠ snake_case k) as Hne.
      { intros E. apply Ha. rewrite E. by apply list_elem_of_fmap_2. }
      destruct (asg !! a) as [v|]; [|by injection Hstep as <-].
      destruct (py_iter v) as [els|]; [|done]. simpl in Hstep.
      destruct (map_each normalize_item els); [|done]. simpl in Hstep.
      injection Hstep as <-. by rewrite lookup_insert_ne.
Qed.

Lemma snake_case_scalar_keys :
  snake_case <$> scalar_keys
  = ["auto_scaling_group_arn"; "auto_scaling_group_name"; "availability_zones";
     "default_cooldown"; "desired_capacity"; "health_check_grace_period";
     "health_check_type"; "launch_configuration_name"; "load_balancer_names";
     "max_size"; "min_size"; "new_instances_protected_from_scale_in";
     "placement_group_status"; "termination_policies"].
Proof. reflexivity. Qed.

Lemma snake_case_list_keys :
  snake_case <$> list_keys
  = ["enabled_metrics"; "instances"; "suspended_processes"; "tags"].
Proof. reflexivity. Qed.

Lemma provider_scalar_keys_fresh :
  Forall (λ k, k ∈ scalar_keys
               ∧ (snake_case k ∉ (snake_case <$> list_keys))
               ∧ snake_case k ≠ "vpc_zone_identifier") provider_scalar_keys.
Proof. by_computation. Qed.

Lemma list_keys_fresh :
  Forall (λ k, "created_time" ≠ snake_case k
               ∧ (snake_case k ∉ (snake_case <$> scalar_keys))
               ∧ snake_case k ≠ "vpc_zone_identifier") list_keys.
Proof. by_computation. Qed.

(** What [asg_details] builds, when it returns. *)
Lemma asg_details_normalized asg details :
  asg_details asg = Ok details → normalized asg details.
Proof.
  unfold asg_details, getitem. intros Hrun.
  destruct (asg !! "CreatedTime") as [created|] eqn:Hc; [|done].
  cbn [bind] in Hrun.
  destruct created as [| | | |iso| |]; try done. cbn [bind isoformat] in Hrun.
  set (d0 := ({[ "created_time" := PyStr iso ]} : gmap string pyval)) in Hrun.
  set (d1 := foldl (copy_scalar asg) d0 scalar_keys) in Hrun.
  destruct (for_each (copy_list asg) list_keys d1) as [d2|] eqn:Hl; [|done].
  cbn [bind] in Hrun.
  assert (∀ j, j ≠ "vpc_zone_identifier" → details !! j = d2 !! j) as Hkeep2.
  { intros j Hv. destruct (asg !! "VPCZoneIdentifier") as [v|].
    - destruct (split_comma v); [|done]. cbn [bind] in Hrun. injection Hrun as <-.
      by rewrite lookup_insert_ne.
    - injection Hrun as <-. by rewrite lookup_insert_ne. }
  assert (NoDup (snake_case <$> scalar_keys)) as Hnd1 by by_computation.
  assert (NoDup (snake_case <$> list_keys)) as Hnd2 by by_computation.
  assert (∀ key, key ∈ list_keys →
            (is_Some (details !! snake_case key) ↔ is_Some (asg !! key))) as Hlist.
  { intros key Hkey.
    destruct (proj1 (Forall_forall _ _) list_keys_fresh key Hkey) as (F1 & F2 & F3).
    rewrite (Hkeep2 _ F3).
    apply (list_loop_key asg list_keys d1 d2 key Hl Hnd2 Hkey).
    unfold d1. rewrite (scalar_loop_other _ _ _ _ F2).
    unfold d0. by rewrite lookup_singleton_ne. }
  split; [|split; [|split; [|split]]]; [| | | |exact Hlist].
  - intros key Hkey.
    destruct (proj1 (Forall_forall _ _) provider_scalar_keys_fresh key Hkey)
      as (F1 & F2 & F3).
    rewrite (Hkeep2 _ F3), (list_loop_other _ _ _ _ _ Hl F2).
    by apply scalar_loop_key.
  - exists iso. split; [done|].
    rewrite Hkeep2 by done.
    rewrite (list_loop_other _ _ _ _ _ Hl) by by_computation.
    unfold d1. rewrite scalar_loop_other by by_computation.
    unfold d0. by rewrite lookup_singleton_eq.
  - destruct (asg !! "VPCZoneIdentifier") as [v|].
    + destruct (split_comma v); [|done]. cbn [bind] in Hrun. injection Hrun as <-.
      by rewrite lookup_insert_eq.
    + injection Hrun as <-. by rewrite lookup_insert_eq.
  - intros Hv. rewrite Hv in Hrun. injection Hrun as <-.
    by rewrite lookup_insert_eq.
Qed.

Lemma map_each_normalize_item (ds : list (gmap string pyval)) :
  ∃ converted, map_each normalize_item (PyDict <$> ds) = Ok converted.
Proof.
  induction ds as [|d ds [converted IH]]; [by eexists|].
  rewrite fmap_cons. cbn [map_each normalize_item bind]. rewrite IH. by eexists.
Qed.

Lemma list_loop_total asg (l : list string) acc :
  (∀ key v, key ∈ l → asg !! key = Some v →
     ∃ ds : list (gmap string pyval), v = PyList (PyDict <$> ds)) →
  ∃ details, for_each (copy_list asg) l acc = Ok details.
Proof.
  revert acc. induction l as [|a l IH]; intros acc Hwf; [by eexists|].
  cbn [for_each]. unfold copy_list at 1.
  destruct (asg !! a) as [v|] eqn:Ha.
  - destruct (Hwf a v) as [ds ->]; [by left|done|].
    destruct (map_each_normalize_item ds) as [converted Hc].
    cbn [py_iter bind]. rewrite Hc. cbn [bind].
    apply IH. intros key v' Hk. apply Hwf. by right.
  - apply IH. intros key v' Hk. apply Hwf. by right.
Qed.

(** A well-formed provider record is always converted. *)
Lemma asg_details_total asg :
  well_formed asg → ∃ details, asg_details asg = Ok details.
Proof.
  intros ([iso Hc] & Hl & Hv). unfold asg_details, getitem. rewrite Hc.
  cbn [bind isoformat].
  destruct (list_loop_total asg list_keys
              (foldl (copy_scalar asg) {[ "created_time" := PyStr iso ]} scalar_keys))
    as [d2 Hd2].
  { intros key v Hk. by apply Hl. }
  rewrite Hd2. cbn [bind].
  destruct (asg !! "VPCZoneIdentifier") as [v|] eqn:Hvpc; [|by eexists].
  destruct (Hv v eq_refl) as [s ->]. by eexists.
Qed.

(** Every record returned by [find_asgs] is the conversion of an
    inventory record that passed both tests. *)
Lemma find_asgs_sound asgs name tags results :
  find_asgs asgs name tags = Ok results →
  Forall (λ details, ∃ asg, asg ∈ asgs
                            ∧ matched_name name asg = Ok true
                            ∧ matched_tags tags asg = Ok true
                            ∧ asg_details asg = Ok details) results.
Proof.
  revert results. induction asgs as [|asg asgs IH]; intros results Hrun.
  - injection Hrun as <-. constructor.
  - cbn [find_asgs] in Hrun.
    destruct (matched_name name asg) as [mn|] eqn:Hn; [|done].
    destruct (matched_tags tags asg) as [mt|] eqn:Ht; [|done].
    cbn [bind] in Hrun.
    assert (∀ rs, find_asgs asgs name tags = Ok rs →
              Forall (λ details, ∃ asg0, asg0 ∈ asg :: asgs
                            ∧ matched_name name asg0 = Ok true
                            ∧ matched_tags tags asg0 = Ok true
                            ∧ asg_details asg0 = Ok details) rs) as IH'.
    { intros rs Hrs. eapply Forall_impl; [by apply IH|].
      intros d (a & Ha & ?). exists a. split; [by right|done]. }
    destruct mn, mt; cbn [andb] in Hrun; try by apply IH'.
    destruct (asg_details asg) as [details|] eqn:Hd; [|done].
    destruct (find_asgs asgs name tags) as [rs|] eqn:Hrs; [|done].
    cbn [bind] in Hrun. injection Hrun as <-.
    constructor; [|by apply IH'].
    exists asg. split; [by left|done].
Qed.

(** C5 (as amended) — every record returned by [find_asgs] comes from an
    inventory record that passed both tests and carries: each scalar
    provider field, with value [None] when the provider record lacks it;
    [created_time]; [vpc_zone_identifier], with value [None] when the
    provider record lacks it; and each list-valued field ([enabled_metrics],
    [instances], [suspended_processes], [tags]) exactly when the provider
    record has the corresponding field. A well-formed provider record that
    passes the tests is always returned. *)
Theorem find_asgs_schema :
  (∀ (asgs : list (gmap string pyval)) (name : option string)
     (tags : option (gmap string string)) (results : list (gmap string pyval)),
      find_asgs asgs name tags = Ok results →
      Forall (λ details, ∃ asg, asg ∈ asgs
                                ∧ matched_name name asg = Ok true
                                ∧ matched_tags tags asg = Ok true
                                ∧ normalized asg details) results)
  ∧ (∀ (asg : gmap string pyval) (name : option string)
       (tags : option (gmap string string)),
       well_formed asg →
       matched_name name asg = Ok true → matched_tags tags asg = Ok true →
       ∃ details, find_asgs [asg] name tags = Ok [details]).
Proof.
  split.
  - intros asgs name tags results Hrun.
    eapply Forall_impl; [by apply (find_asgs_sound asgs name tags)|].
    intros details (asg & Hin & Hn & Ht & Hd). exists asg.
    repeat (split; [done|]). by apply asg_details_normalized.
  - intros asg name tags Hwf Hn Ht.
    destruct (asg_details_total asg Hwf) as [details Hd].
    exists details. cbn [find_asgs]. by rewrite Hn, Ht, Hd.
Qed.

Lemma provider_asg_well_formed asg_name tags :
  well_formed (provider_asg asg_name tags).
Proof.
  split; [by eexists|]. split.
  - intros key v Hkey Hv.
    assert (key = "Tags") as ->.
    { revert Hkey Hv. unfold list_keys. rewrite !elem_of_cons, elem_of_nil.
      by intros [->|[->|[->|[->|[]]]]]. }
    injection Hv as <-. exists (provider_tag_fields asg_name <$> tags).
    by rewrite <- list_fmap_compose.
  - by intros v Hv.
Qed.

(** A provider record without [EnabledMetrics], [Instances] and
    [SuspendedProcesses] passes the (absent) filters, and its normalized
    record has no [enabled_metrics], [instances] and [suspended_processes]
    keys at all, while [tags], which the record has, is there. *)
Lemma absent_list_fields_are_omitted :
  let asg := provider_asg "public-webserver-1" [("env", "prod")] in
  asg !! "EnabledMetrics" = None
  ∧ ∃ details, find_asgs [asg] None None = Ok [details]
               ∧ details !! "enabled_metrics" = None
               ∧ details !! "instances" = None
               ∧ details !! "suspended_processes" = None
               ∧ is_Some (details !! "tags").
Proof.
  intros asg. split; [done|].
  destruct (asg_details_total asg (provider_asg_well_formed _ _)) as [details Hd].
  exists details. split; [cbn [find_asgs matched_name matched_tags bind andb];
                          by rewrite Hd|].
  destruct (asg_details_normalized asg details Hd) as (_ & _ & _ & _ & Hlist).
  pose proof (Hlist "EnabledMetrics" ltac:(by_computation)) as H1.
  pose proof (Hlist "Instances" ltac:(by_computation)) as H2.
  pose proof (Hlist "SuspendedProcesses" ltac:(by_computation)) as H3.
  pose proof (Hlist "Tags" ltac:(by_computation)) as H4.
  change (snake_case "EnabledMetrics") with "enabled_metrics" in H1.
  change (snake_case "Instances") with "instances" in H2.
  change (snake_case "SuspendedProcesses") with "suspended_processes" in H3.
  change (snake_case "Tags") with "tags" in H4.
  repeat split.
  - apply eq_None_not_Some. rewrite H1. by intros [? ?].
  - apply eq_None_not_Some. rewrite H2. by intros [? ?].
  - apply eq_None_not_Some. rewrite H3. by intros [? ?].
  - apply H4. by eexists.
Qed.

Lemma find_asgs_schema_witness :
  ∃ details, find_asgs [provider_asg "public-webserver-1" [("env", "prod")]]
               (Some "public-webserver") (Some {[ "env" := "prod" ]})
             = Ok [details].
Proof.
  apply (proj2 find_asgs_schema).
  - apply provider_asg_well_formed.
  - by vm_compute.
  - by vm_compute.
Defined.

(** Whatever the provider record, the converted record has the single key
    [placement_group_status] where [placement_group] and [status] were
    meant. *)
Lemma placement_group_and_status_merged asg details :
  asg_details asg = Ok details →
  details !! "placement_group" = None
  ∧ details !! "status" = None
  ∧ details !! "placement_group_status"
    = Some (default PyNone (asg !! "PlacementGroupStatus")).
Proof.
  unfold asg_details, getitem. intros Hrun.
  destruct (asg !! "CreatedTime") as [created|] eqn:Hc; [|done].
  cbn [bind] in Hrun.
  destruct created as [| | | |iso| |]; try done. cbn [bind isoformat] in Hrun.
  set (d0 := ({[ "created_time" := PyStr iso ]} : gmap string pyval)) in Hrun.
  destruct (for_each (copy_list asg) list_keys
              (foldl (copy_scalar asg) d0 scalar_keys)) as [d2|] eqn:Hl; [|done].
  cbn [bind] in Hrun.
  assert (∀ j, j ≠ "vpc_zone_identifier" → j ∉ (snake_case <$> list_keys) →
            details !! j = foldl (copy_scalar asg) d0 scalar_keys !! j) as Hkeep.
  { intros j Hv Hj. rewrite <- (list_loop_other _ _ _ _ _ Hl Hj).
    destruct (asg !! "VPCZoneIdentifier") as [v|].
    - destruct (split_comma v); [|done]. cbn [bind] in Hrun. injection Hrun as <-.
      by rewrite lookup_insert_ne.
    - injection Hrun as <-. by rewrite lookup_insert_ne. }
  split; [|split].
  - rewrite Hkeep by by_computation. by rewrite scalar_loop_other by by_computation.
  - rewrite Hkeep by by_computation. by rewrite scalar_loop_other by by_computation.
  - rewrite Hkeep by by_computation.
    apply (scalar_loop_key asg scalar_keys d0 "PlacementGroupStatus");
      by_computation.
Qed.

End normalization.

(** ** Reporting *)

Section reporting.
Import Ec2AsgFacts.

Lemma truthy_nonempty {A : Type} (l : list A) : truthy l = true ↔ l ≠ [].
Proof. by destruct l. Qed.

(** Over the limit, [ec2_asg_facts.py] fails with the names of all matches
    if the module globals bind [name], and raises [NameError] otherwise. *)
Lemma facts_report_over_limit globals results limit_results no_result_action names :
  (limit_results > 0)%Z →
  (Z.of_nat (length results) > limit_results)%Z →
  map_each (λ a, getitem a "auto_scaling_group_name") results = Ok names →
  report globals results limit_results no_result_action
  = match globals !! "name" with
    | Some name => Ok (fail_json (MsgMoreThan limit_results name) (Some names))
    | None => Exn (NameError "name")
    end.
Proof.
  intros H0 Hlen Hnames. unfold report, global.
  rewrite !bool_decide_eq_true_2 by done. cbn [andb]. rewrite Hnames. cbn [bind].
  by destruct (globals !! "name").
Qed.

(** The same for [ec2_asg_find.py]. *)
Lemma find_report_over_limit globals results limit_results no_result_action :
  (limit_results > 0)%Z →
  (Z.of_nat (length results) > limit_results)%Z →
  Ec2AsgFind.report globals results limit_results no_result_action
  = match globals !! "name" with
    | Some name =>
        Ok (fail_json (MsgMoreThan limit_results name)
                      (Some ((λ asg, Ec2AsgFind.get asg "name") <$> results)))
    | None => Exn (NameError "name")
    end.
Proof.
  intros H0 Hlen. unfold Ec2AsgFind.report, global.
  rewrite !bool_decide_eq_true_2 by done. cbn [andb].
  by destruct (globals !! "name").
Qed.

(** With [limit_results = 0] neither module fails on the count. *)
Lemma report_unbounded globals results no_result_action limit name names :
  report globals results 0 no_result_action
    ≠ Ok (fail_json (MsgMoreThan limit name) names)
  ∧ Ec2AsgFind.report globals results 0 no_result_action
    ≠ Ok (fail_json (MsgMoreThan limit name) names).
Proof.
  unfold report, Ec2AsgFind.report, global. cbn [bool_decide andb].
  rewrite (bool_decide_eq_false_2 (0 > 0)%Z) by lia. cbn [andb].
  split; repeat case_match; simplify_eq; done.
Qed.

(** C8 — over the limit both modules mean to fail with the names of all
    matches, but they format the message with [name], a variable [main]
    does not have. On Scenario D ([limit_results = 1], two matches) and
    with module globals that do not bind [name], both raise [NameError]
    and no failure result is produced; the intended failure, carrying both
    names, only comes out when some global [name] exists. With
    [limit_results = 0] the same inventory is returned without failure. *)
Theorem limit_exceeded_reads_unbound_name :
  main ∅ scenario_D_inventory (Some "public-webserver") None 1 "success"
    = Exn (NameError "name")
  ∧ Ec2AsgFind.main ∅ Ec2AsgFind.scenario_D_inventory "public-webserver" 1 "success"
    = Exn (NameError "name")
  ∧ main {[ "name" := PyNone ]} scenario_D_inventory
      (Some "public-webserver") None 1 "success"
    = Ok (fail_json (MsgMoreThan 1 PyNone)
            (Some [PyStr "public-webserver-1"; PyStr "public-webserver-2"]))
  ∧ Ec2AsgFind.main {[ "name" := PyNone ]} Ec2AsgFind.scenario_D_inventory
      "public-webserver" 1 "success"
    = Ok (fail_json (MsgMoreThan 1 PyNone)
            (Some [PyStr "public-webserver-1"; PyStr "public-webserver-2"]))
  ∧ match main ∅ scenario_D_inventory (Some "public-webserver") None 0 "success" with
    | Ok (exit_json changed _ [_; _]) => changed = true
    | _ => False
    end.
Proof.
  split; [by vm_compute|]. split; [by vm_compute|].
  split; [by vm_compute|]. split; [by vm_compute|].
  by vm_compute.
Qed.

Lemma facts_report_exit globals results limit_results no_result_action changed rc rs :
  report globals results limit_results no_result_action = Ok (exit_json changed rc rs) →
  rs = results ∧ changed = truthy results.
Proof.
  unfold report, global.
  destruct (bool_decide (limit_results > 0)%Z
            && bool_decide (Z.of_nat (length results) > limit_results)%Z).
  { destruct (map_each _ results); cbn [bind]; [|done].
    by destruct (globals !! "name"). }
  destruct (bool_decide (no_result_action = "fail")), (truthy results) eqn:Ht,
    (bool_decide (no_result_action = "success")); cbn [andb negb];
    intros H; by simplify_eq.
Qed.

Lemma find_report_exit globals results limit_results no_result_action changed rc rs :
  Ec2AsgFind.report globals results limit_results no_result_action
    = Ok (exit_json changed rc rs) →
  rs = results ∧ changed = truthy results.
Proof.
  unfold Ec2AsgFind.report, global.
  destruct (bool_decide (limit_results > 0)%Z
            && bool_decide (Z.of_nat (length results) > limit_results)%Z).
  { by destruct (globals !! "name"). }
  destruct (bool_decide (no_result_action = "fail")), (truthy results) eqn:Ht,
    (bool_decide (no_result_action = "success")); cbn [andb negb];
    try (by destruct (globals !! "name"));
    intros H; by simplify_eq.
Qed.

(** C10 — whenever either module ends with [exit_json], the results it
    reports are those of [find_asgs] and [changed] is true exactly when
    they are not empty. Both cases happen: within the limit, a non-empty
    result exits with [changed = true], and an empty one exits with
    [changed = false] when [no_result_action] is [success]. *)
Theorem changed_iff_results_nonempty :
  (∀ (globals : gmap string pyval) (inventory : list (gmap string pyval))
     (asg_name : option string) (asg_tags : option (gmap string string))
     (limit_results : Z) (no_result_action : string)
     (changed : bool) (rc : Z) (results : list (gmap string pyval)),
      main globals inventory asg_name asg_tags limit_results no_result_action
        = Ok (exit_json changed rc results) →
      find_asgs inventory asg_name asg_tags = Ok results
      ∧ (changed = true ↔ results ≠ []))
  ∧ (∀ (globals : gmap string pyval) (inventory : list pyval) (asg_name : string)
       (limit_results : Z) (no_result_action : string)
       (changed : bool) (rc : Z) (results : list (gmap string pyval)),
      Ec2AsgFind.main globals inventory asg_name limit_results no_result_action
        = Ok (exit_json changed rc results) →
      Ec2AsgFind.find_asgs asg_name inventory = Ok results
      ∧ (changed = true ↔ results ≠ []))
  ∧ (∀ (globals : gmap string pyval) (results : list (gmap string pyval))
       (limit_results : Z) (no_result_action : string),
      ¬ (limit_results > 0 ∧ Z.of_nat (length results) > limit_results)%Z →
      results ≠ [] ∨ no_result_action = "success" →
      report globals results limit_results no_result_action
        = Ok (exit_json (truthy results) 0 results)
      ∧ Ec2AsgFind.report globals results limit_results no_result_action
        = Ok (exit_json (truthy results) 0 results)).
Proof.
  split; [|split].
  - intros globals inventory asg_name asg_tags limit nra changed rc results.
    unfold main. destruct (find_asgs inventory asg_name asg_tags) as [rs|]; [|done].
    cbn [bind]. intros H. apply facts_report_exit in H as [-> ->].
    split; [done|]. apply truthy_nonempty.
  - intros globals inventory asg_name limit nra changed rc results.
    unfold Ec2AsgFind.main.
    destruct (Ec2AsgFind.find_asgs asg_name inventory) as [rs|]; [|done].
    cbn [bind]. intros H. apply find_report_exit in H as [-> ->].
    split; [done|]. apply truthy_nonempty.
  - intros globals results limit nra Hlim Hres.
    unfold report, Ec2AsgFind.report.
    assert (bool_decide (limit > 0)%Z
            && bool_decide (Z.of_nat (length results) > limit)%Z = false) as ->.
    { apply andb_false_iff.
      destruct (decide (limit > 0)%Z), (decide (Z.of_nat (length results) > limit)%Z);
        [by destruct Hlim|right|left|left]; by apply bool_decide_eq_false_2. }
    destruct results as [|r rs]; cbn [truthy negb andb].
    + destruct Hres as [Hne | ->]; [done|].
      by rewrite (bool_decide_eq_false_2 ("success" = "fail")),
                 (bool_decide_eq_true_2 ("success" = "success")).
    + by rewrite !andb_false_r.
Qed.

Lemma changed_iff_results_nonempty_witness :
  (∃ rc results,
     main ∅ scenario_D_inventory (Some "public-webserver") (Some {[ "env" := "prod" ]})
       0 "success" = Ok (exit_json true rc results)
     ∧ find_asgs scenario_D_inventory (Some "public-webserver")
         (Some {[ "env" := "prod" ]}) = Ok results
     ∧ (true = true ↔ results ≠ []))
  ∧ (find_asgs [] (Some "public-webserver") None = Ok []
     ∧ (false = true ↔ ([] : list (gmap string pyval)) ≠ [])).
Proof.
  split.
  - assert (match main ∅ scenario_D_inventory (Some "public-webserver")
                    (Some {[ "env" := "prod" ]}) 0 "success" with
            | Ok (exit_json changed _ (_ :: _)) => changed
            | _ => false
            end = true) as Hruns by (by vm_compute).
    destruct (main ∅ scenario_D_inventory (Some "public-webserver")
                (Some {[ "env" := "prod" ]}) 0 "success")
      as [[changed rc results|msg names]|e] eqn:Hmain;
      [|discriminate Hruns|discriminate Hruns].
    destruct results as [|details results]; [discriminate Hruns|].
    simpl in Hruns. subst changed.
    exists rc, (details :: results). split; [done|].
    exact (proj1 changed_iff_results_nonempty ∅ scenario_D_inventory
             (Some "public-webserver") (Some {[ "env" := "prod" ]})
             0%Z "success" true rc (details :: results) Hmain).
  - apply (proj1 changed_iff_results_nonempty ∅ [] (Some "public-webserver") None
             0%Z "success" false 0%Z []).
    reflexivity.
Defined.

(** A query that matches the two groups of the sample inventory exits with
    [changed = true] although nothing was modified. *)
Example read_only_query_reports_changed :
  match main ∅ scenario_D_inventory (Some "public-webserver") (Some {[ "env" := "prod" ]})
          0 "success" with
  | Ok (exit_json changed _ [_; _]) => changed = true
  | _ => False
  end.
Proof. by vm_compute. Qed.

End reporting.

(** * Further properties of the code *)

(** ** Tag formats *)

Section tag_formats.
Import ElasticacheTag.
Implicit Types (d current desired : gmap string string) (l : list Tag).

Lemma make_tags_in_proper_format_snoc l t :
  make_tags_in_proper_format (l ++ [t])
  = <[Key t := Value t]> (make_tags_in_proper_format l).
Proof. unfold make_tags_in_proper_format. by rewrite foldl_app. Qed.

(** X1 — the two tag formats are inverse on dictionaries: converting a
    dictionary to the AWS list format and back gives the dictionary; the
    list has one tag per entry, with pairwise distinct keys, and holds
    exactly the entries of the dictionary. *)
Theorem tag_formats_round_trip d :
  make_tags_in_proper_format (make_tags_in_aws_format d) = d
  ∧ NoDup (Key <$> make_tags_in_aws_format d)
  ∧ length (make_tags_in_aws_format d) = size d
  ∧ (∀ k v, mkTag k v ∈ make_tags_in_aws_format d ↔ d !! k = Some v).
Proof.
  split; [apply make_tags_round_trip|]. unfold make_tags_in_aws_format, items.
  split; [|split].
  - rewrite <- list_fmap_compose.
    rewrite (list_fmap_ext _ fst (map_to_list d)) by (by intros ? []).
    apply NoDup_fst_map_to_list.
  - by rewrite length_fmap, length_map_to_list.
  - intros k v. rewrite list_elem_of_fmap. split.
    + intros [[k' v'] [E Hin]]. simpl in E. injection E as -> ->.
      by apply elem_of_map_to_list.
    + intros H. exists (k, v). split; [done|]. by apply elem_of_map_to_list.
Qed.

(** X2 — when a tag list repeats a key, the dictionary keeps the value of
    the last tag with that key: the lookup of any key is the value of the
    last tag of the list that carries it, and is absent when no tag does. *)
Theorem make_tags_in_proper_format_last_wins l k :
  make_tags_in_proper_format l !! k
  = Value <$> last (filter (λ t, Key t = k) l).
Proof.
  induction l as [|t l IH] using rev_ind; [done|].
  rewrite make_tags_in_proper_format_snoc, filter_app.
  destruct (decide (Key t = k)) as [<-|Hne].
  - rewrite lookup_insert_eq. rewrite filter_cons_True by done.
    by rewrite filter_nil, last_snoc.
  - rewrite lookup_insert_ne by done. rewrite filter_cons_False by done.
    by rewrite filter_nil, app_nil_r.
Qed.

End tag_formats.

(** ** Calls issued by the reconciler *)

Section reconciler_calls.
Import ElasticacheTag ElasticacheTagMain.
Implicit Types (d current desired : gmap string string).

(** Something is to update exactly when a desired pair is not in place. *)
Lemma tags_to_update_nonempty_iff desired current :
  tags_to_update desired current ≠ ∅
  ↔ ∃ k v, desired !! k = Some v ∧ current !! k ≠ Some v.
Proof.
  rewrite tags_to_update_empty_iff, map_subseteq_spec. split.
  - intros Hn. destruct (decide (map_Exists (λ k v, current !! k ≠ Some v) desired))
      as [Hex|Hno].
    + destruct Hex as (k & v & Hk & Hv). by exists k, v.
    + exfalso. apply Hn. intros k v Hk.
      destruct (decide (current !! k = Some v)) as [|Hne]; [done|].
      exfalso. apply Hno. by exists k, v.
  - intros (k & v & Hk & Hv) H. by apply Hv, H.
Qed.

(** Something is to delete exactly when a listed key exists. *)
Lemma tags_to_delete_nonempty_iff desired current :
  tags_to_delete desired current ≠ ∅
  ↔ ∃ k, is_Some (desired !! k) ∧ is_Some (current !! k).
Proof.
  rewrite <- dom_empty_iff_L, tags_to_delete_dom. split.
  - intros Hn. apply set_choose_L in Hn as [k Hk].
    apply elem_of_intersection in Hk as [H1 H2].
    exists k. by rewrite <- !elem_of_dom.
  - intros (k & H1 & H2) He.
    assert (k ∈ dom desired ∩ dom current) as Hk.
    { apply elem_of_intersection. by rewrite !elem_of_dom. }
    rewrite He in Hk. by apply not_elem_of_empty in Hk.
Qed.

(** X3 — check mode never mutates: whatever the provider answers, [add]
    and [remove] called with [check_mode=True] issue no
    [add_tags_to_resource] and no [remove_tags_from_resource]; yet [add]
    still reports [changed = true] when a desired tag is missing or
    different. *)
Theorem check_mode_never_mutates {St : Type} (c : client St) (s : St)
    (name : string) desired (diff_mode : bool) :
  no_mutation (log (run c (add name desired true diff_mode) s))
  ∧ no_mutation (log (run c (remove name desired true diff_mode) s))
  ∧ (∀ fetched,
       (on_list c name s).1 = Success fetched →
       (∃ k v, desired !! k = Some v
               ∧ make_tags_in_proper_format fetched !! k ≠ Some v) →
       ∃ o, returned (run c (add name desired true false) s) = Ok o
            ∧ success o = true ∧ changed o = true).
Proof.
  unfold no_mutation. split; [|split].
  - unfold add, and_then, tags_action. simpl.
    destruct (on_list c name s) as [[fetched|msg] s1]; simpl;
      destruct diff_mode; simpl; repeat constructor;
      case_decide; simpl;
      destruct (on_list c name s1) as [[?|?] ?]; simpl; by repeat constructor.
  - unfold remove, and_then, tags_action. simpl.
    destruct (on_list c name s) as [[fetched|msg] s1]; simpl;
      destruct diff_mode; simpl;
      try (destruct (for_each pop _ _); simpl; by repeat constructor);
      case_decide; simpl;
      destruct (on_list c name s1) as [[?|?] ?]; simpl; by repeat constructor.
  - intros fetched Hf Hmiss. apply tags_to_update_nonempty_iff in Hmiss.
    unfold add, and_then, tags_action. simpl.
    destruct (on_list c name s) as [r s1]. simpl in Hf. subst r. simpl.
    rewrite decide_True by done. simpl.
    destruct (on_list c name s1) as [[?|?] ?]; simpl; by eexists.
Qed.

Lemma check_mode_never_mutates_witness :
  ∃ o, returned (run store_client
                   (add "test-cache" scenario_A_desired true false) scenario_A_current)
       = Ok o
       ∧ success o = true ∧ changed o = true.
Proof.
  apply (proj2 (proj2 (check_mode_never_mutates store_client scenario_A_current
                         "test-cache" scenario_A_desired false))
           (make_tags_in_aws_format scenario_A_current)).
  - reflexivity.
  - exists "Env", "dev". rewrite make_tags_round_trip. by vm_compute.
Defined.

(** X4 — [add] makes at most one mutation call, and that call carries
    every desired tag, not only the ones that differ: in diff mode the only
    call is the initial read; otherwise the calls are a read and the
    verification read, with, outside check mode, possibly one
    [add_tags_to_resource] of all desired tags in between. *)
Theorem add_call_sequence {St : Type} (c : client St) (s : St)
    (name : string) desired (check_mode diff_mode : bool) :
  let calls := log (run c (add name desired check_mode diff_mode) s) in
  if diff_mode then calls = [ListCall name]
  else calls = [ListCall name; ListCall name]
       ∨ (check_mode = false
          ∧ calls = [ListCall name;
                     AddCall name (make_tags_in_aws_format desired);
                     ListCall name]).
Proof.
  unfold add, and_then, tags_action. simpl.
  destruct (on_list c name s) as [[fetched|msg] s1]; simpl;
    destruct diff_mode; simpl; try done;
    case_decide; destruct check_mode; simpl;
    repeat match goal with
           | |- context [on_add c ?n ?t ?x] => destruct (on_add c n t x) as [[?|?] ?]; simpl
           | |- context [on_list c ?n ?x] => destruct (on_list c n x) as [[?|?] ?]; simpl
           end; auto.
Qed.

(** X5 — [remove] makes at most one mutation call and never adds: in diff
    mode the only call is the initial read; otherwise the calls are a read
    and the verification read, with, outside check mode, possibly one
    [remove_tags_from_resource] in between, whose keys are a non-empty list
    of listed keys. *)
Theorem remove_call_sequence {St : Type} (c : client St) (s : St)
    (name : string) desired (check_mode diff_mode : bool) :
  let calls := log (run c (remove name desired check_mode diff_mode) s) in
  if diff_mode then calls = [ListCall name]
  else calls = [ListCall name; ListCall name]
       ∨ (check_mode = false
          ∧ ∃ ks, calls = [ListCall name; RemoveCall name ks; ListCall name]
                  ∧ ks ≠ [] ∧ ∀ k, k ∈ ks → is_Some (desired !! k)).
Proof.
  assert (∀ current, tags_to_delete desired current ≠ ∅ →
            keys (tags_to_delete desired current) ≠ []
            ∧ ∀ k, k ∈ keys (tags_to_delete desired current) → is_Some (desired !! k))
    as Hkeys.
  { intros current Hne. split; [by rewrite keys_empty_iff|].
    intros k Hk. apply elem_of_keys in Hk as [v Hv].
    rewrite tags_to_delete_lookup in Hv. destruct (desired !! k); [by eexists|done]. }
  unfold remove, and_then, tags_action. simpl.
  destruct (on_list c name s) as [[fetched|msg] s1]; simpl;
    destruct diff_mode; simpl;
    try (destruct (for_each pop _ _); simpl; done);
    case_decide as Hd; destruct check_mode; simpl;
    repeat match goal with
           | |- context [on_remove c ?n ?t ?x] =>
               destruct (on_remove c n t x) as [[?|?] ?]; simpl
           | |- context [on_list c ?n ?x] => destruct (on_list c n x) as [[?|?] ?]; simpl
           end; auto;
    right; (split; [done|]); eexists; (split; [done|]); by apply Hkeys.
Qed.

(** X6 — a mutation the provider refuses is reported, not retried: when
    [add_tags_to_resource] (resp. [remove_tags_from_resource]) raises
    [ClientError], [add] (resp. [remove]) returns [success = false],
    [changed = false] and the provider's message, after exactly one
    mutation attempt and the verification read. *)
Theorem refused_mutation_is_reported {St : Type} (c : client St) (s : St)
    (name : string) desired (fetched : list Tag) (msg : string) :
  (on_list c name s).1 = Success fetched →
  let s1 := (on_list c name s).2 in
  let current := make_tags_in_proper_format fetched in
  ((∃ k v, desired !! k = Some v ∧ current !! k ≠ Some v) →
   (on_add c name (make_tags_in_aws_format desired) s1).1 = ClientError msg →
   ∃ o, returned (run c (add name desired false false) s) = Ok o
        ∧ success o = false ∧ changed o = false
        ∧ err_msg o = MsgClientError msg
        ∧ length (filter (λ x, is_mutation x = true)
                    (log (run c (add name desired false false) s))) = 1)
  ∧ ((∃ k, is_Some (desired !! k) ∧ is_Some (current !! k)) →
     (on_remove c name (keys (tags_to_delete desired current)) s1).1 = ClientError msg →
     ∃ o, returned (run c (remove name desired false false) s) = Ok o
          ∧ success o = false ∧ changed o = false
          ∧ err_msg o = MsgClientError msg
          ∧ length (filter (λ x, is_mutation x = true)
                      (log (run c (remove name desired false false) s))) = 1).
Proof.
  intros Hf s1 current. subst s1 current. split.
  - intros Hmiss Hadd. apply tags_to_update_nonempty_iff in Hmiss.
    unfold add, and_then, tags_action. simpl.
    destruct (on_list c name s) as [r s1]. simpl in Hf, Hadd. subst r. simpl.
    rewrite decide_True by done. simpl.
    destruct (on_add c name _ s1) as [r s2]. simpl in Hadd. subst r. simpl.
    destruct (on_list c name s2) as [[?|?] ?]; simpl; by eexists.
  - intros Hex Hrem. apply tags_to_delete_nonempty_iff in Hex.
    unfold remove, and_then, tags_action. simpl.
    destruct (on_list c name s) as [r s1]. simpl in Hf, Hrem. subst r. simpl.
    rewrite decide_True by done. simpl.
    destruct (on_remove c name _ s1) as [r s2]. simpl in Hrem. subst r. simpl.
    destruct (on_list c name s2) as [[?|?] ?]; simpl; by eexists.
Qed.

Lemma refused_mutation_is_reported_witness :
  ∃ o, returned (run read_only_client
                   (add "test-cache" scenario_A_desired false false) scenario_A_current)
       = Ok o
       ∧ success o = false ∧ changed o = false
       ∧ err_msg o = MsgClientError "AccessDenied"
       ∧ length (filter (λ x, is_mutation x = true)
                   (log (run read_only_client
                           (add "test-cache" scenario_A_desired false false)
                           scenario_A_current))) = 1.
Proof.
  apply (proj1 (refused_mutation_is_reported read_only_client scenario_A_current
                  "test-cache" scenario_A_desired
                  (make_tags_in_aws_format scenario_A_current) "AccessDenied"
                  eq_refl)).
  - exists "Env", "dev". rewrite make_tags_round_trip. by vm_compute.
  - reflexivity.
Defined.

End reconciler_calls.

(** ** The reconciler against a dependable provider *)

Section reconciler_store.
Import ElasticacheTag ElasticacheTagMain.
Implicit Types (d current desired : gmap string string).

Lemma foldl_delete_lookup (ks : list string) current k :
  foldl (λ m key, delete key m) current ks !! k
  = if decide (k ∈ ks) then None else current !! k.
Proof.
  revert current. induction ks as [|a ks IH]; intros current; cbn [foldl].
  - by rewrite decide_False by apply not_elem_of_nil.
  - rewrite IH. destruct (decide (k ∈ ks)) as [Hin|Hin].
    + rewrite decide_True; [done|by right].
    + destruct (decide (a = k)) as [->|Hne].
      * rewrite lookup_delete_eq. rewrite decide_True; [done|by left].
      * rewrite lookup_delete_ne by done. rewrite decide_False; [done|].
        rewrite elem_of_cons. by intros [->|?].
Qed.

(** X7 — a real [add] merges: against a dependable provider it succeeds,
    leaves on the resource the desired tags on top of the current ones
    (every key that is not declared keeps its value), reports exactly the
    tags left on the resource, and reports [changed = true] exactly when
    some desired tag was missing or had another value. *)
Theorem add_merges_into_current (name : string) desired current :
  let e := run store_client (add name desired false false) current in
  ∃ o, returned e = Ok o
       ∧ success o = true
       ∧ final e = desired ∪ current
       ∧ tags o = final e
       ∧ (∀ k, desired !! k = None → final e !! k = current !! k)
       ∧ (∀ k v, desired !! k = Some v → final e !! k = Some v)
       ∧ (changed o = true ↔ ∃ k v, desired !! k = Some v ∧ current !! k ≠ Some v).
Proof.
  unfold add, and_then. simpl. rewrite make_tags_round_trip.
  assert (∀ k, desired !! k = None → (desired ∪ current) !! k = current !! k) as Hkeep.
  { intros k Hk. by rewrite lookup_union_r. }
  assert (∀ k v, desired !! k = Some v → (desired ∪ current) !! k = Some v) as Hset.
  { intros k v Hk. by apply lookup_union_Some_l. }
  destruct (decide (tags_to_update desired current ≠ ∅)) as [Hne|He]; simpl.
  - rewrite store_add_union. eexists. split; [done|]. simpl.
    rewrite make_tags_round_trip. repeat split; try done.
    intros _. by apply tags_to_update_nonempty_iff.
  - assert (desired ⊆ current) as Hsub.
    { apply tags_to_update_empty_iff.
      by destruct (decide (tags_to_update desired current = ∅)); [|contradict He]. }
    eexists. split; [done|]. simpl. rewrite make_tags_round_trip.
    rewrite (map_subseteq_union _ _ Hsub). repeat split; try done.
    + intros k v Hk. by apply (proj1 (map_subseteq_spec _ _) Hsub).
    + intros (k & v & Hk & Hv). exfalso. apply Hv.
      by apply (proj1 (map_subseteq_spec _ _) Hsub).
Qed.

(** X8 — a real [remove] deletes by key only: against a dependable
    provider it succeeds, leaves on the resource exactly the current tags
    whose key is not listed (the values given for the listed keys play no
    role), reports the tags left on the resource, reports [changed = true]
    exactly when a listed key existed, and a second run changes nothing. *)
Theorem remove_deletes_listed_keys (name : string) desired current :
  let e := run store_client (remove name desired false false) current in
  let e2 := run store_client (remove name desired false false) (final e) in
  ∃ o o2, returned e = Ok o ∧ returned e2 = Ok o2
       ∧ success o = true
       ∧ (∀ k, final e !! k = if decide (is_Some (desired !! k)) then None
                              else current !! k)
       ∧ tags o = final e
       ∧ (changed o = true ↔ ∃ k, is_Some (desired !! k) ∧ is_Some (current !! k))
       ∧ changed o2 = false ∧ final e2 = final e ∧ no_mutation (log e2).
Proof.
  assert (∀ cur, ∃ o,
            returned (run store_client (remove name desired false false) cur) = Ok o
            ∧ success o = true
            ∧ (∀ k, final (run store_client (remove name desired false false) cur) !! k
                    = if decide (is_Some (desired !! k)) then None else cur !! k)
            ∧ tags o = final (run store_client (remove name desired false false) cur)
            ∧ (changed o = true ↔ ∃ k, is_Some (desired !! k) ∧ is_Some (cur !! k))
            ∧ (changed o = false →
               no_mutation (log (run store_client (remove name desired false false) cur))
               ∧ final (run store_client (remove name desired false false) cur) = cur))
    as Hone.
  { intros cur. unfold remove, and_then, tags_action, no_mutation. simpl.
    rewrite make_tags_round_trip.
    destruct (decide (tags_to_delete desired cur ≠ ∅)) as [Hne|He]; simpl.
    - eexists. split; [done|]. simpl. rewrite make_tags_round_trip.
      repeat split; try done.
      + intros k. rewrite foldl_delete_lookup.
        destruct (decide (k ∈ keys (tags_to_delete desired cur))) as [Hin|Hin].
        * apply elem_of_keys in Hin as [v Hv]. rewrite tags_to_delete_lookup in Hv.
          destruct (desired !! k) eqn:Hd; [|done]. by rewrite decide_True by eauto.
        * rewrite elem_of_keys, tags_to_delete_lookup in Hin.
          destruct (desired !! k) eqn:Hd.
          -- rewrite decide_True by eauto.
             destruct (decide (is_Some (cur !! k))) as [Hc|Hc].
             ++ exfalso. apply Hin. by eexists.
             ++ by apply eq_None_not_Some.
          -- rewrite decide_False; [done|]. by intros [? ?].
      + intros _. by apply tags_to_delete_nonempty_iff.
    - assert (tags_to_delete desired cur = ∅) as He'.
      { by destruct (decide (tags_to_delete desired cur = ∅)); [|contradict He]. }
      eexists. split; [done|]. simpl. rewrite make_tags_round_trip.
      repeat split; try done.
      + intros k. destruct (decide (is_Some (desired !! k))) as [Hd|Hd]; [|done].
        apply eq_None_not_Some. intros Hc.
        apply (proj2 (tags_to_delete_nonempty_iff desired cur)); [|done]. eauto.
      + intros (k & Hd & Hc).
        exfalso. apply (proj2 (tags_to_delete_nonempty_iff desired cur)); [|done]. eauto.
      + by repeat constructor. }
  intros e e2. subst e e2.
  destruct (Hone current) as (o & Hr & Hs & Hf & Ht & Hc & _).
  destruct (Hone (final (run store_client (remove name desired false false) current)))
    as (o2 & Hr2 & _ & Hf2 & _ & Hc2 & Hno).
  assert (changed o2 = false) as Hch2.
  { destruct (changed o2) eqn:E; [|done]. exfalso.
    destruct (proj1 Hc2 eq_refl) as (k & Hd & Hcur).
    rewrite Hf, decide_True in Hcur by done. by destruct Hcur. }
  exists o, o2. destruct (Hno Hch2) as [Hl2 Hfin2].
  split; [done|]. split; [done|]. split; [done|]. split; [done|].
  split; [done|]. split; [exact Hc|]. by split.
Qed.

End reconciler_store.

(** ** [remove] in diff mode, and [main] *)

Section reconciler_diff.
Import ElasticacheTag ElasticacheTagMain.
Implicit Types (d current desired : gmap string string).

Lemma pop_all (ks : list string) d :
  NoDup ks → (∀ k, k ∈ ks → is_Some (d !! k)) →
  for_each pop ks d = Ok (foldl (λ m key, delete key m) d ks).
Proof.
  revert d. induction ks as [|a ks IH]; intros d Hnd Hall; [done|].
  apply NoDup_cons in Hnd as [Ha Hnd]. cbn [for_each foldl]. unfold pop at 1.
  destruct (Hall a) as [v ->]; [by left|].
  apply IH; [done|]. intros k Hk.
  rewrite lookup_delete_ne; [apply Hall; by right|]. by intros ->.
Qed.

Lemma pop_missing (ks : list string) d :
  NoDup ks → (∃ k, k ∈ ks ∧ d !! k = None) →
  ∃ k, k ∈ ks ∧ d !! k = None ∧ for_each pop ks d = Exn (KeyError k).
Proof.
  revert d. induction ks as [|a ks IH]; intros d Hnd (k & Hk & Hnone).
  - by apply elem_of_nil in Hk.
  - apply NoDup_cons in Hnd as [Ha Hnd]. cbn [for_each]. unfold pop at 1.
    destruct (d !! a) as [v|] eqn:Hda.
    + apply elem_of_cons in Hk as [->|Hk]; [congruence|].
      destruct (IH (delete a d) Hnd) as (k' & Hk' & Hn' & Hrun).
      { exists k. split; [done|]. rewrite lookup_delete_ne; [done|]. by intros ->. }
      exists k'. split; [by right|]. split; [|done].
      rewrite lookup_delete_ne in Hn'; [done|]. by intros ->.
    + exists a. split; [by left|]. by split.
Qed.

(** X9 — [remove] in diff mode only reads. When every listed key exists it
    returns [changed = false], the listed dictionary itself as [tags], and
    a diff whose [before] is the current tags and whose [after] is the
    current tags without the listed keys; when some listed key does not
    exist it raises [KeyError] for such a key. *)
Theorem remove_diff_mode {St : Type} (c : client St) (s : St) (name : string)
    desired (fetched : list Tag) (check_mode : bool) :
  (on_list c name s).1 = Success fetched →
  let current := make_tags_in_proper_format fetched in
  let e := run c (remove name desired check_mode true) s in
  log e = [ListCall name]
  ∧ ((∀ k, is_Some (desired !! k) → is_Some (current !! k)) →
     ∃ o aft, returned e = Ok o
       ∧ success o = true ∧ changed o = false ∧ tags o = desired
       ∧ before (diff o) = Some current
       ∧ after (diff o) = Some aft
       ∧ ∀ k, aft !! k = if decide (is_Some (desired !! k)) then None
                         else current !! k)
  ∧ ((∃ k, is_Some (desired !! k) ∧ current !! k = None) →
     ∃ k, is_Some (desired !! k) ∧ current !! k = None
          ∧ returned e = Exn (KeyError k)).
Proof.
  intros Hf current e. subst e. unfold remove, and_then. simpl.
  destruct (on_list c name s) as [r s1]. simpl in Hf. subst r. simpl.
  fold current.
  assert (NoDup (keys desired)) as Hnd by apply NoDup_fst_map_to_list.
  split; [by destruct (for_each pop (keys desired) current)|]. split.
  - intros Hall. rewrite pop_all; [|done|].
    2:{ intros k Hk. apply Hall. by apply elem_of_keys. }
    simpl. eexists _, _. repeat (split; [done|]).
    intros k. rewrite foldl_delete_lookup.
    destruct (decide (k ∈ keys desired)) as [Hin|Hin].
    + by rewrite decide_True by (by apply elem_of_keys).
    + by rewrite decide_False by (by rewrite <- elem_of_keys).
  - intros (k & Hk & Hnone).
    destruct (pop_missing (keys desired) current Hnd) as (k' & Hk' & Hn' & Hrun).
    { exists k. split; [by apply elem_of_keys|done]. }
    exists k'. split; [by apply elem_of_keys|]. split; [done|].
    by rewrite Hrun.
Qed.

Lemma remove_diff_mode_witness :
  ∃ k, is_Some (scenario_B_desired !! k)
       ∧ make_tags_in_proper_format (make_tags_in_aws_format scenario_B_current) !! k
         = None
       ∧ returned (run store_client
                     (remove "test-cache" scenario_B_desired false true)
                     scenario_B_current)
         = Exn (KeyError k).
Proof.
  apply (proj2 (proj2 (remove_diff_mode store_client scenario_B_current "test-cache"
                         scenario_B_desired
                         (make_tags_in_aws_format scenario_B_current) false eq_refl))).
  exists "Service". split; [by eexists|]. by vm_compute.
Defined.

(** [add] always returns. *)
Lemma add_returns {St : Type} (c : client St) s name desired check_mode diff_mode :
  ∃ o, returned (run c (add name desired check_mode diff_mode) s) = Ok o.
Proof.
  unfold add, and_then, tags_action. simpl.
  destruct (on_list c name s) as [[fetched|msg] s1]; simpl;
    destruct diff_mode; simpl; try (by eexists);
    case_decide; destruct check_mode; simpl;
    repeat match goal with
           | |- context [on_add c ?n ?t ?x] => destruct (on_add c n t x) as [[?|?] ?]; simpl
           | |- context [on_list c ?n ?x] => destruct (on_list c n x) as [[?|?] ?]; simpl
           end; by eexists.
Qed.

Lemma run_and_then {St A B : Type} (c : client St) (p : api A) (f : A → api B) s :
  run c (and_then p f) s
  = match returned (run c p s) with
    | Ok a =>
        let e := run c (f a) (final (run c p s)) in
        mkExecution (returned e) (final e) (log (run c p s) ++ log e)
    | Exn x => mkExecution (Exn x) (final (run c p s)) (log (run c p s))
    end.
Proof.
  revert s. unfold and_then.
  induction p as [a|x|n k IH|n t k IH|n t k IH]; intros s; simpl.
  - by destruct (run c (f a) s).
  - done.
  - destruct (on_list c n s) as [r s1]. rewrite IH. unfold logged. simpl.
    by destruct (returned (run c (k r) s1)).
  - destruct (on_add c n t s) as [r s1]. rewrite IH. unfold logged. simpl.
    by destruct (returned (run c (k r) s1)).
  - destruct (on_remove c n t s) as [r s1]. rewrite IH. unfold logged. simpl.
    by destruct (returned (run c (k r) s1)).
Qed.

(** X10 — what [main] does with each state. With [state = 'absent'] it
    passes [check_mode] where [remove] expects the tags, so after the
    initial read it raises [AttributeError] and never asks for a removal,
    whatever the provider, the tags and the check mode. With
    [state = 'present'] it runs [add] on the cluster ARN outside diff mode
    and ends with [exit_json] when [add] succeeded and [fail_json]
    otherwise, carrying [add]'s result, the ARN and the name. *)
Theorem main_dispatch {St : Type} (c : client St) (s : St)
    (region account_id name : string) (tags : gmap string string)
    (check_mode : bool) :
  let arn := cluster_arn region account_id name in
  (let e := run c (main region account_id name "absent" tags check_mode) s in
   returned e = Exn (AttributeError "keys") ∧ log e = [ListCall arn])
  ∧ (let e := run c (main region account_id name "present" tags check_mode) s in
     let e' := run c (add arn tags check_mode false) s in
     log e = log e' ∧ final e = final e'
     ∧ ∃ o, returned e' = Ok o
            ∧ returned e
              = Ok ((if success o then exit_json else fail_json)
                      (mkExitResults (success o) (changed o) (err_msg o)
                         (ElasticacheTag.tags o) arn name))).
Proof.
  intros arn. split.
  - unfold main, remove_any, and_then. simpl. fold arn.
    by destruct (on_list c arn s) as [[?|?] ?].
  - unfold main. cbn zeta. fold arn. rewrite run_and_then.
    rewrite decide_True by done.
    destruct (add_returns c s arn tags check_mode false) as [o Ho].
    rewrite Ho. cbn zeta.
    destruct (success o) eqn:Hs; simpl; rewrite app_nil_r;
      (split; [done|]; split; [done|]; exists o; by rewrite Hs).
Qed.

End reconciler_diff.

(** ** The query of [ec2_asg_facts.py] *)

Section query.
Import Ec2AsgFacts.
Implicit Types (asg details : gmap string pyval) (asgs : list (gmap string pyval)).

Lemma map_each_Forall2 {A B : Type} (f : A → result B) (xs : list A) (ys : list B) :
  map_each f xs = Ok ys ↔ Forall2 (λ x y, f x = Ok y) xs ys.
Proof.
  revert ys. induction xs as [|x xs IH]; intros ys; cbn [map_each].
  - split; [intros [= <-]; constructor|by inversion 1].
  - destruct (f x) as [y|e] eqn:Hx; cbn [bind].
    + destruct (map_each f xs) as [ys'|e] eqn:Hxs; cbn [bind].
      * split.
        -- intros [= <-]. constructor; [done|]. by apply IH.
        -- inversion 1 as [|? y' ? ys'' Hy Hys]; subst.
           apply IH in Hys. congruence.
      * split; [done|]. inversion 1 as [|? y' ? ys'' Hy Hys]; subst.
        by apply IH in Hys.
    + split; [done|]. inversion 1; congruence.
Qed.

(** X11 — no filter means match all: with no name filter (or the empty
    string) and no tag filter (or the empty dictionary) [find_asgs]
    converts every inventory record, in order; on a well-formed inventory
    it returns as many records as the inventory has. *)
Theorem find_asgs_without_filters asgs (name : option string)
    (tags : option (gmap string string)) :
  name = None ∨ name = Some "" →
  tags = None ∨ tags = Some ∅ →
  find_asgs asgs name tags = map_each asg_details asgs
  ∧ (Forall well_formed asgs →
     ∃ results, find_asgs asgs name tags = Ok results
                ∧ length results = length asgs).
Proof.
  intros Hn Ht.
  assert (find_asgs asgs name tags = map_each asg_details asgs) as Heq.
  { induction asgs as [|asg asgs IH]; [done|].
    cbn [find_asgs map_each].
    assert (matched_name name asg = Ok true) as -> by (by destruct Hn as [-> | ->]).
    assert (matched_tags tags asg = Ok true) as ->.
    { destruct Ht as [-> | ->]; [done|]. unfold matched_tags. by rewrite decide_True. }
    cbn [bind andb]. by rewrite IH. }
  split; [done|]. rewrite Heq. clear Heq. intros Hwf.
  induction Hwf as [|asg asgs Hasg _ [results [Hr Hl]]]; [by exists []|].
  destruct (asg_details_total asg Hasg) as [details Hd].
  exists (details :: results). cbn [map_each]. rewrite Hd, Hr. cbn [bind].
  split; [done|]. simpl. by rewrite Hl.
Qed.

Lemma find_asgs_without_filters_witness :
  find_asgs scenario_D_inventory (Some "") (Some ∅)
  = map_each asg_details scenario_D_inventory
  ∧ (Forall well_formed scenario_D_inventory →
     ∃ results, find_asgs scenario_D_inventory (Some "") (Some ∅) = Ok results
                ∧ length results = length scenario_D_inventory).
Proof.
  apply (find_asgs_without_filters scenario_D_inventory (Some "") (Some ∅)).
  - by right.
  - by right.
Defined.

(** X12 — [find_asgs] is a filter that keeps the inventory order: if each
    record gets a verdict (the conjunction of its name test and its tag
    test) and the records with a positive verdict are converted, the result
    is the list of those conversions, in inventory order. *)
Theorem find_asgs_selects asgs (name : option string)
    (tags : option (gmap string string)) (verdicts : list bool)
    (converted : list (gmap string pyval)) :
  Forall2 (λ asg verdict, ∃ mn mt, matched_name name asg = Ok mn
                                   ∧ matched_tags tags asg = Ok mt
                                   ∧ verdict = mn && mt) asgs verdicts →
  Forall2 (λ asg details, asg_details asg = Ok details)
    (filter (λ p, p.2 = true) (zip asgs verdicts)).*1 converted →
  find_asgs asgs name tags = Ok converted.
Proof.
  intros Hv. revert converted.
  induction Hv as [|asg verdict asgs verdicts (mn & mt & Hn & Ht & ->) _ IH];
    intros converted Hc.
  - simpl in Hc. by inversion Hc.
  - cbn [find_asgs]. rewrite Hn, Ht. cbn [bind].
    cbn [zip zip_with] in Hc. rewrite filter_cons in Hc. cbn [snd] in Hc.
    destruct (mn && mt) eqn:E.
    + rewrite decide_True in Hc by done. rewrite fmap_cons in Hc. cbn [fst] in Hc.
      inversion Hc as [|? details ? converted' Hd Hrest]; subst.
      rewrite Hd. cbn [bind]. by rewrite (IH _ Hrest).
    + rewrite decide_False in Hc by done. by apply IH.
Qed.

Lemma find_asgs_selects_witness :
  ∃ details,
    find_asgs scenario_D_inventory (Some "public-webserver-2") None = Ok [details].
Proof.
  destruct (asg_details_total (provider_asg "public-webserver-2" [("env", "prod")])
              (provider_asg_well_formed _ _)) as [details Hd].
  exists details.
  apply (find_asgs_selects scenario_D_inventory (Some "public-webserver-2") None
           [false; true] [details]).
  - repeat constructor.
    + exists false, true. by vm_compute.
    + exists true, true. by vm_compute.
  - cbn. by repeat constructor.
Defined.

Lemma find_asgs_app asgs1 asgs2 name tags results :
  find_asgs asgs1 name tags = Ok results →
  find_asgs (asgs1 ++ asgs2) name tags
  = try results' := find_asgs asgs2 name tags in Ok (results ++ results')%list.
Proof.
  revert results. induction asgs1 as [|asg asgs1 IH]; intros results Hr.
  - injection Hr as <-. simpl. by destruct (find_asgs asgs2 name tags).
  - rewrite <- app_comm_cons. cbn [find_asgs] in *.
    destruct (matched_name name asg) as [mn|]; [|done].
    destruct (matched_tags tags asg) as [mt|]; [|done]. cbn [bind] in *.
    destruct (mn && mt).
    + destruct (asg_details asg) as [details|]; [|done]. cbn [bind] in *.
      destruct (find_asgs asgs1 name tags) as [rs|] eqn:Hrs; [|done].
      cbn [bind] in Hr. injection Hr as <-.
      rewrite (IH rs eq_refl).
      by destruct (find_asgs asgs2 name tags).
    + by apply IH.
Qed.

(** X13 — one incomplete record aborts the whole query. After any
    inventory prefix that is processed without error: a record without
    [Tags] makes a query with a non-empty tag filter raise [KeyError];
    a record without [AutoScalingGroupName] makes a query with a name
    filter (of ordinary characters) raise [KeyError]; a record that passes
    the tests but has no [CreatedTime] makes the query raise [KeyError].
    Nothing is returned for the records before or after it. *)
Theorem incomplete_record_aborts_query asg (before after : list (gmap string pyval))
    (name : option string) (tags : option (gmap string string))
    (results : list (gmap string pyval)) :
  find_asgs before name tags = Ok results →
  (∀ filter mn, tags = Some filter → filter ≠ ∅ → asg !! "Tags" = None →
     matched_name name asg = Ok mn →
     find_asgs (before ++ asg :: after) name tags = Exn (KeyError "Tags"))
  ∧ (∀ n, name = Some n → n ≠ "" → Re.plain n →
       asg !! "AutoScalingGroupName" = None →
       find_asgs (before ++ asg :: after) name tags
       = Exn (KeyError "AutoScalingGroupName"))
  ∧ (matched_name name asg = Ok true → matched_tags tags asg = Ok true →
     asg !! "CreatedTime" = None →
     find_asgs (before ++ asg :: after) name tags = Exn (KeyError "CreatedTime")).
Proof.
  intros Hb. rewrite (find_asgs_app _ _ _ _ _ Hb). cbn [find_asgs].
  split; [|split].
  - intros filter mn -> Hne Htags Hn. rewrite Hn. cbn [bind].
    unfold matched_tags. rewrite decide_False by done.
    unfold match_asg_tags.
    destruct (items filter) as [|[k v] pairs] eqn:Hi.
    { exfalso. apply Hne. by apply map_to_list_empty_iff. }
    cbn [match_asg_tags_loop]. unfold getitem. by rewrite Htags.
  - intros n -> Hne Hp Hname. destruct n as [|c n]; [done|].
    unfold matched_name. rewrite (compile_anchored _ Hp). cbn [bind].
    unfold getitem. by rewrite Hname.
  - intros Hn Ht Hc. rewrite Hn, Ht. cbn [bind andb].
    unfold asg_details, getitem. by rewrite Hc.
Qed.

Lemma incomplete_record_aborts_query_witness :
  find_asgs ([] ++ ∅ :: scenario_D_inventory) None None
  = Exn (KeyError "CreatedTime").
Proof.
  by apply (proj2 (proj2 (incomplete_record_aborts_query ∅ [] scenario_D_inventory
                            None None [] eq_refl))).
Defined.

End query.

(** ** Records built by [ec2_asg_facts.py] *)

Section records.
Import Ec2AsgFacts.
Implicit Types (asg details acc : gmap string pyval).

Lemma dict_of_lookup_Some {V : Type} (l : list (string * V)) k v :
  dict_of l !! k = Some v → (k, v) ∈ l.
Proof.
  unfold dict_of. rewrite foldl_insert_pairs, (right_id_L ∅ (∪)).
  intros H. apply elem_of_list_to_map_2 in H.
  exact (proj1 (elem_of_reverse _ _) H).
Qed.

Lemma dict_of_lookup_is_Some {V : Type} (l : list (string * V)) k :
  k ∈ l.*1 → is_Some (dict_of l !! k).
Proof.
  unfold dict_of. rewrite foldl_insert_pairs, (right_id_L ∅ (∪)).
  intros H. apply not_eq_None_Some. intros Hn.
  apply not_elem_of_list_to_map in Hn. apply Hn.
  rewrite fmap_reverse. exact (proj2 (elem_of_reverse _ _) H).
Qed.

Lemma list_loop_value asg (l : list string) acc details k v :
  for_each (copy_list asg) l acc = Ok details →
  NoDup (snake_case <$> l) → k ∈ l → asg !! k = Some v →
  ∃ elements converted,
    py_iter v = Ok elements
    ∧ map_each normalize_item elements = Ok converted
    ∧ details !! snake_case k = Some (PyList converted).
Proof.
  revert acc. induction l as [|a l IH]; intros acc Hrun Hnd Hk Hv.
  - by apply elem_of_nil in Hk.
  - rewrite fmap_cons in Hnd. apply NoDup_cons in Hnd as [Ha Hnd].
    cbn [for_each] in Hrun.
    destruct (copy_list asg acc a) as [acc1|e] eqn:Hstep; [|done].
    apply elem_of_cons in Hk as [->|Hk]; [|by apply (IH acc1)].
    unfold copy_list in Hstep. rewrite Hv in Hstep.
    destruct (py_iter v) as [els|] eqn:Hels; [|done]. cbn [bind] in Hstep.
    destruct (map_each normalize_item els) as [conv|] eqn:Hconv; [|done].
    cbn [bind] in Hstep.
    injection Hstep as <-. exists els, conv. split; [done|]. split; [done|].
    by rewrite (list_loop_other _ _ _ _ _ Hrun Ha), lookup_insert_eq.
Qed.

(** X14 — the keys of a normalized record are bounded by a fixed schema:
    whatever fields the provider record has, every key of the result is one
    of twenty lower-case names, so provider fields outside the two key
    lists are dropped. *)
Theorem asg_details_keys asg details :
  asg_details asg = Ok details →
  ∀ key, is_Some (details !! key) →
    no_capitals key
    ∧ key ∈ ["created_time"; "vpc_zone_identifier";
             "auto_scaling_group_arn"; "auto_scaling_group_name";
             "availability_zones"; "default_cooldown"; "desired_capacity";
             "health_check_grace_period"; "health_check_type";
             "launch_configuration_name"; "load_balancer_names"; "max_size";
             "min_size"; "new_instances_protected_from_scale_in";
             "placement_group_status"; "termination_policies";
             "enabled_metrics"; "instances"; "suspended_processes"; "tags"].
Proof.
  unfold asg_details, getitem. intros Hrun key Hkey.
  destruct (asg !! "CreatedTime") as [created|] eqn:Hc; [|done].
  cbn [bind] in Hrun.
  destruct created as [| | | |iso| |]; try done. cbn [bind isoformat] in Hrun.
  set (d0 := ({[ "created_time" := PyStr iso ]} : gmap string pyval)) in Hrun.
  destruct (for_each (copy_list asg) list_keys
              (foldl (copy_scalar asg) d0 scalar_keys)) as [d2|] eqn:Hl; [|done].
  cbn [bind] in Hrun.
  set (schema := (["created_time"; "vpc_zone_identifier"]
                  ++ (snake_case <$> scalar_keys)
                  ++ (snake_case <$> list_keys))%list).
  assert (key ∈ schema) as Hin.
  { destruct (decide (key ∈ schema)) as [|Hout]; [done|]. exfalso.
    unfold schema in Hout. rewrite !not_elem_of_app in Hout.
    destruct Hout as (H1 & H2 & H3).
    apply not_elem_of_cons in H1 as [H1 H1'].
    apply not_elem_of_cons in H1' as [H1' _].
    assert (details !! key = None) as Hnone.
    { transitivity (d2 !! key).
      - destruct (asg !! "VPCZoneIdentifier") as [v|].
        + destruct (split_comma v); [|done]. cbn [bind] in Hrun.
          injection Hrun as <-. by rewrite lookup_insert_ne.
        + injection Hrun as <-. by rewrite lookup_insert_ne.
      - rewrite (list_loop_other _ _ _ _ _ Hl H3), (scalar_loop_other _ _ _ _ H2).
        unfold d0. by rewrite lookup_singleton_ne. }
    rewrite Hnone in Hkey. by destruct Hkey. }
  assert (Forall no_capitals schema) as Hcaps.
  { unfold schema. rewrite snake_case_scalar_keys, snake_case_list_keys.
    repeat constructor. }
  split; [by apply (proj1 (Forall_forall _ _) Hcaps)|].
  revert Hin. unfold schema. rewrite snake_case_scalar_keys, snake_case_list_keys.
  done.
Qed.

Lemma asg_details_keys_witness :
  ∃ details,
    asg_details (provider_asg "public-webserver-1" [("env", "prod")]) = Ok details
    ∧ (is_Some (details !! "tags") → no_capitals "tags").
Proof.
  destruct (asg_details_total (provider_asg "public-webserver-1" [("env", "prod")])
              (provider_asg_well_formed _ _)) as [details Hd].
  exists details. split; [done|]. intros Hs.
  apply (asg_details_keys _ details Hd "tags" Hs).
Defined.

(** X15 — the per-record conversion is idempotent: converting a converted
    record changes nothing. Its keys have no capitals, every entry of the
    result is an entry of the original under the converted key, and every
    key of the original has its converted key in the result. *)
Theorem normalize_item_idempotent (item converted : pyval) :
  normalize_item item = Ok converted →
  normalize_item converted = Ok converted
  ∧ ∃ d d', item = PyDict d ∧ converted = PyDict d'
      ∧ (∀ k' v, d' !! k' = Some v →
           no_capitals k' ∧ ∃ k, snake_case k = k' ∧ d !! k = Some v)
      ∧ (∀ k, is_Some (d !! k) → is_Some (d' !! snake_case k)).
Proof.
  destruct item as [| | | | | |d]; try done. intros [= <-].
  set (d' := dict_of ((λ kv, (snake_case kv.1, kv.2)) <$> items d)).
  assert (∀ k' v, d' !! k' = Some v →
            no_capitals k' ∧ ∃ k, snake_case k = k' ∧ d !! k = Some v) as Hfrom.
  { intros k' v Hv. apply dict_of_lookup_Some in Hv.
    apply list_elem_of_fmap in Hv as [[k v0] [E Hin]]. simpl in E.
    injection E as -> ->. split; [apply snake_case_no_capitals|].
    exists k. split; [done|]. by apply elem_of_map_to_list. }
  split.
  - unfold normalize_item. do 2 f_equal.
    rewrite <- (dict_of_items d') at 2. f_equal.
    rewrite <- (list_fmap_id (items d')) at 2.
    apply list_fmap_ext. intros i [k v] Hkv. simpl.
    rewrite snake_case_fixed; [done|].
    apply (Hfrom k v). apply elem_of_map_to_list.
    unfold items in Hkv. by apply list_elem_of_lookup_2 in Hkv.
  - exists d, d'. repeat split; try done; try (by apply (Hfrom k' v)).
    intros k [v Hk]. apply dict_of_lookup_is_Some.
    rewrite <- list_fmap_compose. apply list_elem_of_fmap.
    exists (k, v). split; [done|]. by apply elem_of_map_to_list.
Qed.

Lemma normalize_item_idempotent_witness :
  ∃ converted,
    normalize_item (provider_tag "web" ("env", "prod")) = Ok converted
    ∧ normalize_item converted = Ok converted.
Proof.
  eexists. split; [reflexivity|].
  apply (normalize_item_idempotent (provider_tag "web" ("env", "prod"))).
  reflexivity.
Defined.

(** X16 — a list-valued field is converted element by element: when the
    provider record has one of [EnabledMetrics], [Instances],
    [SuspendedProcesses], [Tags] as a list of dictionaries, the normalized
    record holds under the converted key a list of the same length whose
    elements are the conversions of the provider's elements, in order. *)
Theorem list_field_is_converted asg details (key : string)
    (ds : list (gmap string pyval)) :
  asg_details asg = Ok details →
  key ∈ list_keys →
  asg !! key = Some (PyList (PyDict <$> ds)) →
  ∃ rs, details !! snake_case key = Some (PyList rs)
        ∧ Forall2 (λ d r, normalize_item (PyDict d) = Ok r) ds rs.
Proof.
  unfold asg_details, getitem. intros Hrun Hkey Hv.
  destruct (asg !! "CreatedTime") as [created|] eqn:Hc; [|done].
  cbn [bind] in Hrun.
  destruct created as [| | | |iso| |]; try done. cbn [bind isoformat] in Hrun.
  destruct (for_each (copy_list asg) list_keys _) as [d2|] eqn:Hl; [|done].
  cbn [bind] in Hrun.
  destruct (list_loop_value _ _ _ _ _ _ Hl ltac:(by_computation) Hkey Hv)
    as (els & conv & Hels & Hconv & Hd2).
  cbn [py_iter] in Hels. injection Hels as <-.
  exists conv. split.
  - destruct (proj1 (Forall_forall _ _) list_keys_fresh key Hkey) as (_ & _ & F3).
    destruct (asg !! "VPCZoneIdentifier") as [v|].
    + destruct (split_comma v); [|done]. cbn [bind] in Hrun. injection Hrun as <-.
      by rewrite lookup_insert_ne.
    + injection Hrun as <-. by rewrite lookup_insert_ne.
  - apply map_each_Forall2 in Hconv. by apply Forall2_fmap_l in Hconv.
Qed.

Lemma list_field_is_converted_witness :
  ∃ details rs,
    asg_details (provider_asg "web" [("env", "prod")]) = Ok details
    ∧ details !! "tags" = Some (PyList rs)
    ∧ Forall2 (λ d r, normalize_item (PyDict d) = Ok r)
        (provider_tag_fields "web" <$> [("env", "prod")]) rs.
Proof.
  destruct (asg_details_total (provider_asg "web" [("env", "prod")])
              (provider_asg_well_formed _ _)) as [details Hd].
  destruct (list_field_is_converted _ details "Tags"
              (provider_tag_fields "web" <$> [("env", "prod")]) Hd)
    as [rs Hrs]; [by_computation|reflexivity|].
  by exists details, rs.
Defined.

End records.

(** ** Subnet lists *)

Section subnets.
Import Ec2AsgFacts Joined.
Implicit Types (asg details : gmap string pyval).

Lemma split_on_free sep (p : string) : free_of sep p → split_on sep p = [p].
Proof.
  unfold free_of. induction p as [|c p IH]; [done|]. simpl.
  intros H. apply Forall_cons in H as [Hc Hp].
  by rewrite bool_decide_eq_false_2, IH.
Qed.

Lemma split_on_app sep (p rest : string) :
  free_of sep p → split_on sep (p +:+ String sep rest) = p :: split_on sep rest.
Proof.
  unfold free_of. induction p as [|c p IH]; simpl.
  - intros _. by rewrite bool_decide_eq_true_2.
  - intros H. apply Forall_cons in H as [Hc Hp].
    by rewrite bool_decide_eq_false_2, IH.
Qed.

(** Splitting a joined list gives the list back. *)
Lemma split_on_join sep (pieces : list string) :
  pieces ≠ [] → Forall (free_of sep) pieces →
  split_on sep (join sep pieces) = pieces.
Proof.
  induction pieces as [|p pieces IH]; [done|]. intros _ H.
  apply Forall_cons in H as [Hp Hps].
  destruct pieces as [|q pieces]; [by apply split_on_free|].
  cbn [join]. rewrite split_on_app by done. f_equal. by apply IH.
Qed.

(** X17 — [vpc_zone_identifier] decodes the provider's comma-joined
    string: when [VPCZoneIdentifier] is the join of a non-empty list of
    comma-free identifiers, the normalized record holds exactly that list,
    in order. (The empty string is the join of one empty identifier and
    gives a list holding one empty string.) *)
Theorem vpc_zone_identifier_round_trip asg details (ids : list string) :
  asg_details asg = Ok details →
  asg !! "VPCZoneIdentifier" = Some (PyStr (join ","%char ids)) →
  ids ≠ [] → Forall (free_of ","%char) ids →
  details !! "vpc_zone_identifier" = Some (PyList (PyStr <$> ids)).
Proof.
  unfold asg_details, getitem. intros Hrun Hv Hne Hfree.
  destruct (asg !! "CreatedTime") as [created|] eqn:Hc; [|done].
  cbn [bind] in Hrun.
  destruct created as [| | | |iso| |]; try done. cbn [bind isoformat] in Hrun.
  destruct (for_each (copy_list asg) list_keys _) as [d2|] eqn:Hl; [|done].
  cbn [bind] in Hrun. rewrite Hv in Hrun. cbn [split_comma bind] in Hrun.
  injection Hrun as <-. rewrite lookup_insert_eq.
  by rewrite split_on_join.
Qed.

Lemma vpc_zone_identifier_round_trip_witness :
  ∃ details,
    asg_details (<["VPCZoneIdentifier" := PyStr "subnet-a1,subnet-b2"]>
                   (provider_asg "web" [])) = Ok details
    ∧ details !! "vpc_zone_identifier"
      = Some (PyList [PyStr "subnet-a1"; PyStr "subnet-b2"]).
Proof.
  destruct (asg_details_total
              (<["VPCZoneIdentifier" := PyStr "subnet-a1,subnet-b2"]>
                 (provider_asg "web" []))) as [details Hd].
  { split; [by eexists|]. split.
    - intros key v Hkey Hv.
      assert (key = "Tags") as ->.
      { revert Hkey Hv. unfold list_keys. rewrite !elem_of_cons, elem_of_nil.
        by intros [->|[->|[->|[->|[]]]]]. }
      injection Hv as <-. by exists [].
    - intros v [= <-]. by eexists. }
  exists details. split; [done|].
  apply (vpc_zone_identifier_round_trip _ details ["subnet-a1"; "subnet-b2"] Hd).
  - reflexivity.
  - done.
  - repeat constructor; by_computation.
Defined.

Lemma match_here_literals (p : list ascii) (q : list Re.atom) b (s : string) :
  p ≠ [] →
  Re.match_here ((Re.One ∘ Re.Lit <$> p) ++ q) b s = true
  ↔ ∃ rest, s = String.string_of_list_ascii p +:+ rest
            ∧ Re.match_here q false rest = true.
Proof.
  revert b s. induction p as [|a p IH]; [done|]. intros b s _.
  rewrite fmap_cons. cbn [app Re.match_here String.string_of_list_ascii compose].
  destruct s as [|c s].
  { split; [done|]. by intros (rest & ? & _). }
  cbn [Re.in_charset]. rewrite andb_true_iff, bool_decide_eq_true.
  destruct p as [|a' p].
  - cbn [fmap list_fmap app String.string_of_list_ascii]. split.
    + intros [-> H]. by exists s.
    + intros (rest & [= -> ->] & H). done.
  - rewrite (IH false s ltac:(done)). split.
    + intros [-> (rest & -> & H)]. by exists rest.
    + intros (rest & [= -> ->] & H). split; [done|]. by exists rest.
Qed.

(** The subnet pattern finds a match exactly in the strings that start with
    [subnet-] followed by a character of the class. *)
Lemma subnet_search_iff (s : string) :
  Re.search Re.subnet s = true
  ↔ ∃ c rest, s = "subnet-" +:+ String c rest ∧ subnet_id_char c = true.
Proof.
  unfold Re.subnet. rewrite search_anchored.
  rewrite (match_here_literals (String.list_ascii_of_string "subnet-")) by done.
  split.
  - intros (rest & -> & H). destruct rest as [|c rest]; [done|].
    exists c, rest. split; [done|].
    cbn [Re.match_here] in H. by apply andb_true_iff in H as [H _].
  - intros (c & rest & -> & H). exists (String c rest). split; [done|].
    cbn [Re.match_here]. unfold subnet_id_char in H. rewrite H.
    by rewrite orb_true_r.
Qed.

(** X18 — [convert_string_into_list] only validates the start of the
    string: a comma-joined list of comma-free identifiers whose first
    identifier starts with [subnet-] and a character of [[a-z0-9]] is
    decoded to that list, whatever the other identifiers are; a string that
    does not start so gives the empty list; a value that is not a string
    raises [TypeError]. *)
Theorem convert_string_into_list_spec :
  (∀ (c : ascii) (rest : string) (ids : list string),
      subnet_id_char c = true →
      Forall (free_of ","%char) (("subnet-" +:+ String c rest) :: ids) →
      Ec2AsgFind.convert_string_into_list
        (PyStr (join ","%char (("subnet-" +:+ String c rest) :: ids)))
      = Ok (PyList (PyStr <$> ("subnet-" +:+ String c rest) :: ids)))
  ∧ (∀ s : string,
       ¬ (∃ c rest, s = "subnet-" +:+ String c rest ∧ subnet_id_char c = true) →
       Ec2AsgFind.convert_string_into_list (PyStr s) = Ok (PyList []))
  ∧ Ec2AsgFind.convert_string_into_list PyNone
    = Exn (TypeError "expected string or buffer").
Proof.
  split; [|split; [|done]].
  - intros c rest ids Hc Hfree. unfold Ec2AsgFind.convert_string_into_list.
    assert (Re.search Re.subnet
              (join ","%char (("subnet-" +:+ String c rest) :: ids)) = true) as ->.
    { apply subnet_search_iff. destruct ids as [|i ids].
      - by exists c, rest.
      - exists c, (rest +:+ String ","%char (join ","%char (i :: ids))).
        split; [|done]. cbn [join]. simpl. do 8 f_equal. }
    by rewrite split_on_join.
  - intros s Hno. unfold Ec2AsgFind.convert_string_into_list.
    destruct (Re.search Re.subnet s) eqn:E; [|done].
    exfalso. by apply Hno, subnet_search_iff.
Qed.

Lemma convert_string_into_list_spec_witness :
  Ec2AsgFind.convert_string_into_list (PyStr "subnet-a1b1c1d1,not-a-subnet")
  = Ok (PyList [PyStr "subnet-a1b1c1d1"; PyStr "not-a-subnet"]).
Proof.
  apply (proj1 convert_string_into_list_spec "a"%char "1b1c1d1" ["not-a-subnet"]).
  - reflexivity.
  - repeat constructor; by_computation.
Defined.

End subnets.

(** ** Objects converted by [ec2_asg_find.py] *)

Section objects.
Import Ec2AsgFacts Ec2AsgFind.
Implicit Types (attrs d acc : gmap string pyval) (ks : list string).

Lemma attributes_loop_ok attrs ks acc :
  (∀ k, k ∈ ks → is_Some (attrs !! k)) →
  ∃ d, for_each (λ (d : gmap string pyval) attr,
                   try v := getattr (PyDict attrs) attr in Ok (<[attr := v]> d))
         ks acc = Ok d
       ∧ ∀ k, d !! k = if decide (k ∈ ks) then attrs !! k else acc !! k.
Proof.
  revert acc. induction ks as [|a ks IH]; intros acc Hall.
  - exists acc. split; [done|]. intros k.
    by rewrite decide_False by apply not_elem_of_nil.
  - cbn [for_each getattr]. destruct (Hall a) as [v Hv]; [by left|].
    rewrite Hv. cbn [bind].
    destruct (IH (<[a := v]> acc)) as (d & Hd & Hlook).
    { intros k Hk. apply Hall. by right. }
    exists d. split; [done|]. intros k. rewrite Hlook.
    destruct (decide (k ∈ ks)) as [Hin|Hin].
    + rewrite decide_True; [done|by right].
    + destruct (decide (a = k)) as [->|Hne].
      * rewrite lookup_insert_eq. rewrite decide_True; [done|by left].
      * rewrite lookup_insert_ne by done. rewrite decide_False; [done|].
        rewrite elem_of_cons. by intros [->|?].
Qed.

Lemma attributes_loop_missing attrs (pre post : list string) k acc :
  (∀ k', k' ∈ pre → is_Some (attrs !! k')) → attrs !! k = None →
  for_each (λ (d : gmap string pyval) attr,
              try v := getattr (PyDict attrs) attr in Ok (<[attr := v]> d))
    (pre ++ k :: post) acc = Exn (AttributeError k).
Proof.
  revert acc. induction pre as [|a pre IH]; intros acc Hall Hk.
  - cbn [app for_each getattr]. by rewrite Hk.
  - rewrite <- app_comm_cons. cbn [for_each getattr].
    destruct (Hall a) as [v Hv]; [by left|]. rewrite Hv. cbn [bind].
    apply IH; [|done]. intros k' Hk'. apply Hall. by right.
Qed.

(** X19 — copying attributes off an object keeps exactly the listed ones:
    when the object has every listed attribute, the dictionary has the
    listed names as its keys, each with the object's value; otherwise
    [AttributeError] names the first listed attribute the object lacks, and
    a value that is not an object has none of them. *)
Theorem attributes_spec attrs ks :
  ((∀ k, k ∈ ks → is_Some (attrs !! k)) →
   ∃ d, attributes (PyDict attrs) ks = Ok d
        ∧ ∀ k, d !! k = if decide (k ∈ ks) then attrs !! k else None)
  ∧ (∀ pre k post, ks = (pre ++ k :: post)%list →
       (∀ k', k' ∈ pre → is_Some (attrs !! k')) → attrs !! k = None →
       attributes (PyDict attrs) ks = Exn (AttributeError k))
  ∧ (∀ k post, ks = k :: post → attributes PyNone ks = Exn (AttributeError k)).
Proof.
  split; [|split].
  - intros Hall. destruct (attributes_loop_ok attrs ks ∅ Hall) as (d & Hd & Hl).
    exists d. split; [done|]. intros k. rewrite Hl. by rewrite lookup_empty.
  - intros pre k post -> Hall Hk. by apply attributes_loop_missing.
  - by intros k post ->.
Qed.

Lemma attributes_spec_witness :
  ∃ d, attributes (PyDict (<["key" := PyStr "env"]>
                           (<["value" := PyStr "prod"]>
                           {[ "resource_id" := PyStr "web" ]}))) TAG_KEYS = Ok d
       ∧ ∀ k, d !! k
              = if decide (k ∈ TAG_KEYS)
                then (<["key" := PyStr "env"]>
                     (<["value" := PyStr "prod"]>
                     ({[ "resource_id" := PyStr "web" ]} : gmap string pyval))) !! k
                else None.
Proof.
  apply (proj1 (attributes_spec _ TAG_KEYS)).
  intros k Hk. unfold TAG_KEYS in Hk.
  apply elem_of_cons in Hk as [->|Hk]; [by eexists|].
  apply elem_of_cons in Hk as [->|Hk]; [by eexists|].
  by apply elem_of_nil in Hk.
Defined.

(** X20 — [convert_into_dict] converts a list of objects element by
    element, keeping length and order: each result is a dictionary holding
    exactly the listed attributes of the corresponding object. An empty
    list gives an empty list, and [None] in place of the list raises
    [TypeError]. *)
Theorem convert_into_dict_spec (objects : list (gmap string pyval)) ks :
  (Forall (λ attrs, ∀ k, k ∈ ks → is_Some (attrs !! k)) objects →
   ∃ ds : list (gmap string pyval),
     convert_into_dict (PyList (PyDict <$> objects)) ks = Ok (PyList (PyDict <$> ds))
     ∧ Forall2 (λ attrs d, ∀ k, d !! k = if decide (k ∈ ks) then attrs !! k else None)
         objects ds)
  ∧ convert_into_dict (PyList []) ks = Ok (PyList [])
  ∧ convert_into_dict PyNone ks = Exn (TypeError "object has no len()").
Proof.
  split; [|done]. intros Hall. unfold convert_into_dict. cbn [sized bind].
  assert (∃ ds : list (gmap string pyval),
            map_each (λ instance, try d := attributes instance ks in Ok (PyDict d))
              (PyDict <$> objects) = Ok (PyDict <$> ds)
            ∧ Forall2 (λ attrs d, ∀ k, d !! k = if decide (k ∈ ks) then attrs !! k
                                               else None) objects ds)
    as (ds & Hds & Hrel).
  { induction Hall as [|attrs objects Ha _ (ds & Hds & Hrel)]; [by exists []|].
    destruct (attributes_loop_ok attrs ks ∅ Ha) as (d & Hd & Hl).
    exists (d :: ds). rewrite !fmap_cons. cbn [map_each]. unfold attributes at 1.
    rewrite Hd. cbn [bind]. rewrite Hds. cbn [bind]. split; [done|].
    constructor; [|done]. intros k. by rewrite Hl, lookup_empty. }
  exists ds. by rewrite Hds.
Qed.

Lemma convert_into_dict_spec_witness :
  ∃ ds : list (gmap string pyval),
    convert_tags_into_dict
      (PyList (PyDict <$> [<["key" := PyStr "env"]> {[ "value" := PyStr "prod" ]}]))
    = Ok (PyList (PyDict <$> ds))
    ∧ Forall2 (λ attrs d, ∀ k, d !! k = if decide (k ∈ TAG_KEYS) then attrs !! k
                                       else None)
        [<["key" := PyStr "env"]> ({[ "value" := PyStr "prod" ]} : gmap string pyval)]
        ds.
Proof.
  apply (proj1 (convert_into_dict_spec _ TAG_KEYS)).
  constructor; [|constructor].
  intros k Hk. unfold TAG_KEYS in Hk.
  apply elem_of_cons in Hk as [->|Hk]; [by eexists|].
  apply elem_of_cons in Hk as [->|Hk]; [by eexists|].
  by apply elem_of_nil in Hk.
Defined.

Lemma attributes_keys obj ks d :
  attributes obj ks = Ok d → ∀ k, is_Some (d !! k) ↔ k ∈ ks.
Proof.
  unfold attributes.
  assert (∀ acc, for_each (λ (d : gmap string pyval) attr,
                             try v := getattr obj attr in Ok (<[attr := v]> d))
                   ks acc = Ok d →
                 ∀ k, is_Some (d !! k) ↔ k ∈ ks ∨ is_Some (acc !! k)) as H.
  { induction ks as [|a ks IH]; intros acc Hrun k.
    - injection Hrun as <-. rewrite elem_of_nil.
      split; [by right|by intros [?|?]].
    - cbn [for_each] in Hrun. destruct (getattr obj a) as [v|]; [|done].
      cbn [bind] in Hrun. rewrite (IH _ Hrun k), elem_of_cons.
      destruct (decide (a = k)) as [->|Hne].
      + rewrite lookup_insert_eq.
        split; intros _; [left; by left|right; by eexists].
      + rewrite lookup_insert_ne by done.
        split; [intros [?|?]; [left; by right|by right]|].
        intros [[?|?]|?]; [congruence|by left|by right]. }
  intros Hrun k. rewrite (H ∅ Hrun k), lookup_empty.
  split; [intros [?|[? ?]]; done|by left].
Qed.

Lemma search_keys asgs name matched :
  search asgs name = Ok matched →
  Forall (λ r : gmap string pyval, ∀ k, is_Some (r !! k) ↔ k ∈ ASG_KEYS) matched
  ∧ (length matched ≤ length asgs)%nat.
Proof.
  revert matched. induction asgs as [|asg asgs IH]; intros matched Hrun.
  - injection Hrun as <-. split; [constructor|done].
  - cbn [search] in Hrun.
    destruct (attributes asg ASG_KEYS) as [d|] eqn:Hd; [|done]. cbn [bind] in Hrun.
    destruct (Re.search_value _ _) as [b|]; [|done]. cbn [bind] in Hrun.
    destruct (search asgs name) as [rest|]; [|done]. cbn [bind] in Hrun.
    destruct (IH rest eq_refl) as [Hk Hl]. injection Hrun as <-.
    destruct b; cbn [length]; (split; [|lia]); [|done].
    constructor; [|done]. by apply (attributes_keys asg).
Qed.

Lemma convert_asg_keys (asg r : gmap string pyval) :
  (∀ k, is_Some (asg !! k) ↔ k ∈ ASG_KEYS) →
  convert_asg asg = Ok r →
  (∀ k, is_Some (r !! k) ↔ k ∈ ASG_KEYS)
  ∧ r !! "name" = asg !! "name".
Proof.
  intros Hkeys. unfold convert_asg.
  destruct (getitem asg "tags") as [t|]; [|done]. cbn [bind].
  destruct (convert_tags_into_dict t) as [t'|]; [|done]. cbn [bind].
  destruct (getitem _ "instances") as [i|]; [|done]. cbn [bind].
  destruct (convert_instances_into_dict i) as [i'|]; [|done]. cbn [bind].
  destruct (getitem _ "vpc_zone_identifier") as [z|]; [|done]. cbn [bind].
  destruct (convert_string_into_list z) as [z'|]; [|done]. cbn [bind].
  intros [= <-]. split.
  - intros k. rewrite !lookup_insert_is_Some', Hkeys.
    assert ("vpc_zone_identifier" ∈ ASG_KEYS) as H1 by by_computation.
    assert ("instances" ∈ ASG_KEYS) as H2 by by_computation.
    assert ("tags" ∈ ASG_KEYS) as H3 by by_computation.
    split; [|by auto].
    intros [<-|[<-|[<-|?]]]; done.
  - by rewrite !lookup_insert_ne.
Qed.

(** X21 — the records returned by [ec2_asg_find.py] have a stable schema:
    every record returned by [find_asgs] has exactly the nineteen keys of
    [ASG_KEYS], present whatever their value, and the result is never
    longer than the inventory. *)
Theorem find_asgs_stable_schema (name : string) (inventory : list pyval)
    (results : list (gmap string pyval)) :
  Ec2AsgFind.find_asgs name inventory = Ok results →
  Forall (λ r : gmap string pyval, ∀ k, is_Some (r !! k) ↔ k ∈ ASG_KEYS) results
  ∧ (length results ≤ length inventory)%nat.
Proof.
  unfold Ec2AsgFind.find_asgs.
  destruct (search inventory name) as [matched|] eqn:Hs; [|done]. cbn [bind].
  destruct (search_keys _ _ _ Hs) as [Hk Hl]. intros Hm.
  apply map_each_Forall2 in Hm.
  rewrite <- (Forall2_length _ _ _ Hm). split; [|done].
  clear Hl Hs. induction Hm as [|asg r matched results Hr _ IH]; [constructor|].
  apply Forall_cons in Hk as [Ha Hk]. constructor; [|by apply IH].
  by apply (convert_asg_keys asg r Ha Hr).
Qed.

Lemma find_asgs_stable_schema_witness :
  ∃ results,
    Ec2AsgFind.find_asgs "public-webserver" Ec2AsgFind.scenario_D_inventory = Ok results
    ∧ Forall (λ r : gmap string pyval, ∀ k, is_Some (r !! k) ↔ k ∈ ASG_KEYS) results
    ∧ (length results ≤ length Ec2AsgFind.scenario_D_inventory)%nat.
Proof.
  assert (match Ec2AsgFind.find_asgs "public-webserver"
                  Ec2AsgFind.scenario_D_inventory with
          | Ok _ => true
          | Exn _ => false
          end = true) as H by (by vm_compute).
  destruct (Ec2AsgFind.find_asgs "public-webserver" Ec2AsgFind.scenario_D_inventory)
    as [results|e] eqn:E; [|discriminate H].
  exists results. split; [done|].
  exact (find_asgs_stable_schema "public-webserver"
           Ec2AsgFind.scenario_D_inventory results E).
Defined.

End objects.

(** ** More on the two filters and on reporting *)

Section filters.
Import Ec2AsgFacts Joined.
Implicit Types (asg : gmap string pyval).

(** X22 — the tag test is monotone: for groups whose tags are well formed,
    a group that passes a filter still passes it when it carries more
    tags, and passes every filter with fewer pairs; in particular extra
    tags on a group never exclude it. *)
Theorem match_asg_tags_monotone (filter filter' : gmap string string)
    asg asg' (tags tags' : list pyval) (kvs kvs' : list (string * string)) :
  asg !! "Tags" = Some (PyList tags) →
  asg' !! "Tags" = Some (PyList tags') →
  Forall2 (λ tag kv, tag_key_value tag = Some kv) tags kvs →
  Forall2 (λ tag kv, tag_key_value tag = Some kv) tags' kvs' →
  kvs ⊆ kvs' → filter' ⊆ filter →
  match_asg_tags filter asg = Ok true →
  match_asg_tags filter' asg' = Ok true.
Proof.
  intros Ha Ha' Ht Ht' Hsub Hf. unfold match_asg_tags.
  rewrite (match_asg_tags_loop_spec _ asg tags kvs Ha Ht).
  rewrite (match_asg_tags_loop_spec _ asg' tags' kvs' Ha' Ht').
  intros [= Hpass]. f_equal. apply bool_decide_eq_true in Hpass.
  apply bool_decide_eq_true. rewrite Forall_forall in Hpass |- *.
  intros [k v] Hkv. apply Hsub, Hpass. unfold items in *.
  apply elem_of_map_to_list in Hkv. apply elem_of_map_to_list.
  by apply (proj1 (map_subseteq_spec _ _) Hf).
Qed.

Lemma match_asg_tags_monotone_witness :
  match_asg_tags {[ "env" := "prod" ]}
    (provider_asg "web" [("env", "prod"); ("team", "x")]) = Ok true.
Proof.
  apply (match_asg_tags_monotone
           {[ "env" := "prod" ]} {[ "env" := "prod" ]}
           (provider_asg "web" [("env", "prod")])
           (provider_asg "web" [("env", "prod"); ("team", "x")])
           (provider_tag "web" <$> [("env", "prod")])
           (provider_tag "web" <$> [("env", "prod"); ("team", "x")])
           [("env", "prod")] [("env", "prod"); ("team", "x")]).
  - reflexivity.
  - reflexivity.
  - repeat constructor.
  - repeat constructor.
  - intros kv Hkv. apply elem_of_cons in Hkv as [->|Hkv]; [by left|].
    by apply elem_of_nil in Hkv.
  - done.
  - by vm_compute.
Defined.

Lemma match_here_wild (name : string) b (s : string) :
  Forall (λ c, c = "."%char ∨ Re.is_special c = false)
    (String.list_ascii_of_string name) →
  ∃ p, Re.parse name = Some p ∧ Re.match_here p b s = wild_prefix name s.
Proof.
  revert b s. induction name as [|c name IH]; intros b s H.
  - exists []. split; [done|]. by destruct s.
  - cbn [String.list_ascii_of_string] in H. apply Forall_cons in H as [Hc Hn].
    destruct (IH false (match s with String _ s' => s' | _ => s end) Hn)
      as (p & Hp & Hm).
    cbn [Re.parse]. rewrite Hp. cbn [mbind option_bind].
    destruct (decide (c = "."%char)) as [->|Hdot].
    + exists (Re.One Re.Dot :: p). split; [done|].
      destruct s as [|c' s]; [done|]. cbn [Re.match_here wild_prefix Re.in_charset].
      by rewrite Hm.
    + destruct Hc as [->|Hc]; [done|].
      assert (c ≠ "^"%char) as Hcaret by (by intros ->).
      rewrite !bool_decide_eq_false_2, Hc by done.
      exists (Re.One (Re.Lit c) :: p). split; [done|].
      destruct s as [|c' s]; [done|]. cbn [Re.match_here wild_prefix Re.in_charset].
      by rewrite Hm, (bool_decide_eq_false_2 (c = "."%char)) by done.
Qed.

(** X23 — a dot in the name filter is a wildcard: for a filter made of
    ordinary characters and dots, a group passes the name test exactly when
    its name starts with the filter read with each dot standing for any
    character but a newline; so the filter [web.1] also selects [web-1]
    and [webX1-asg]. *)
Theorem name_filter_dot_is_wildcard (name asg_name : string) asg :
  Forall (λ c, c = "."%char ∨ Re.is_special c = false)
    (String.list_ascii_of_string name) →
  asg !! "AutoScalingGroupName" = Some (PyStr asg_name) →
  matched_name (Some name) asg = Ok (wild_prefix name asg_name).
Proof.
  intros Hchars Hname. destruct name as [|c n]; [by destruct asg_name|].
  unfold matched_name, Re.compile.
  destruct (match_here_wild (String c n) true asg_name Hchars) as (p & Hp & Hm).
  change (Re.parse ("^" +:+ String c n))
    with (Re.parse (String c n) ≫= λ p, Some (Re.Bol :: p)).
  rewrite Hp. cbn [mbind option_bind bind]. unfold getitem. rewrite Hname.
  cbn [bind]. by rewrite search_anchored, Hm.
Qed.

Lemma name_filter_dot_is_wildcard_witness :
  matched_name (Some "web.1") {[ "AutoScalingGroupName" := PyStr "webX1-asg" ]}
  = Ok (wild_prefix "web.1" "webX1-asg").
Proof.
  apply name_filter_dot_is_wildcard.
  - repeat constructor; (by left) || (by right).
  - reflexivity.
Defined.

(** X24 — what happens when nothing matches. In [ec2_asg_facts.py] an
    empty result fails with the plain message under [no_result_action =
    fail] and exits with [changed = false] under [success], whatever the
    limit. In [ec2_asg_find.py] the [success] case is the same, but the
    [fail] case (the default there) formats its message with [name] and so
    raises [NameError] unless the module globals bind it. *)
Theorem empty_result_policy (globals : gmap string pyval) (limit_results : Z) :
  (∀ inventory asg_name asg_tags,
      find_asgs inventory asg_name asg_tags = Ok [] →
      main globals inventory asg_name asg_tags limit_results "fail"
        = Ok (fail_json MsgNoResults None)
      ∧ main globals inventory asg_name asg_tags limit_results "success"
        = Ok (exit_json false 0 []))
  ∧ (∀ inventory asg_name,
       Ec2AsgFind.find_asgs asg_name inventory = Ok [] →
       Ec2AsgFind.main globals inventory asg_name limit_results "success"
         = Ok (exit_json false 0 [])
       ∧ Ec2AsgFind.main globals inventory asg_name limit_results "fail"
         = match globals !! "name" with
           | Some name => Ok (fail_json (MsgNoResultsFor name) None)
           | None => Exn (NameError "name")
           end).
Proof.
  assert (bool_decide (limit_results > 0)%Z
          && bool_decide (Z.of_nat (length ([] : list (gmap string pyval)))
                          > limit_results)%Z = false) as Hlim.
  { apply andb_false_iff. destruct (decide (limit_results > 0)%Z).
    - right. apply bool_decide_eq_false_2. simpl. lia.
    - left. by apply bool_decide_eq_false_2. }
  split.
  - intros inventory asg_name asg_tags Hr. unfold main. rewrite Hr. cbn [bind].
    unfold report. by rewrite Hlim.
  - intros inventory asg_name Hr. unfold Ec2AsgFind.main. rewrite Hr. cbn [bind].
    unfold Ec2AsgFind.report, global. rewrite Hlim.
    split; [done|]. cbn. by destruct (globals !! "name").
Qed.

Lemma empty_result_policy_witness :
  Ec2AsgFind.main ∅ [] "public-webserver" 0 "success" = Ok (exit_json false 0 [])
  ∧ Ec2AsgFind.main ∅ [] "public-webserver" 0 "fail" = Exn (NameError "name").
Proof.
  destruct (proj2 (empty_result_policy ∅ 0) [] "public-webserver" eq_refl)
    as [Hsuccess Hfail].
  rewrite lookup_empty in Hfail. by split.
Defined.

End filters.
